(** * Beam implementations of the tf.Transform canonical analyzers

    A shallow embedding of [tensorflow_transform/beam/analyzer_impls.py]:
    the dispatcher [_AnalyzerImpl], the vocabulary builder
    [_UniquesAnalyzerImpl] and the combine engine [_CombinerAnalyzerImpl],
    together with the Python builtins, the numpy operations and the Beam
    transforms they are written with.

    Conventions.
    - Python integers are [Z]; Python 2 byte strings are [string] (a list of
      8-bit characters), compared bytewise as Python compares [str].
    - A [PCollection] is a list holding the elements in one arrival order;
      the theorems on the vocabulary show that the written artifact does not
      depend on that order.
    - A Python exception is a [Raise] in the [result] monad. *)

From Stdlib Require Import ZArith DecimalString Ascii String.
From Stdlib Require DecimalZ DecimalPos.
From stdpp Require Import gmap strings list sorting.

Local Open Scope Z_scope.

(** ** Exceptions *)

Inductive exn : Type :=
  | ValueError
  | AssertionError
  | NotImplementedError (cls : string).

Inductive result (A : Type) : Type :=
  | Ok (a : A)
  | Raise (e : exn).
Arguments Ok {A} a.
Arguments Raise {A} e.

Global Instance result_ret : MRet result := λ A a, Ok a.
Global Instance result_bind : MBind result := λ A B f r,
  match r with
  | Ok a => f a
  | Raise e => Raise e
  end.

(** [assert cond] *)
Definition py_assert (cond : bool) : result unit :=
  if cond then Ok tt else Raise AssertionError.

(** A function applied to every element in turn; the first exception aborts. *)
Fixpoint mapM {A B} (f : A → result B) (l : list A) : result (list B) :=
  match l with
  | [] => Ok []
  | x :: l' => y ← f x; ys ← mapM f l'; Ok (y :: ys)
  end.

(** ** numpy *)

(** The scalars of the arrays are Python 2 byte strings. *)
Abbreviation Element := string (only parsing).

(** An N-dimensional array seen along its first axis: a 0-d array is a
    scalar, an array of higher dimension is the sequence of its sub-arrays. *)
#[warnings="-register-all"] Inductive ndarray : Type :=
  | Scalar (x : Element)
  | Axis (items : list ndarray).

(** [a.ravel().tolist()]: the scalars in C (row-major) order. *)
Fixpoint ravel (a : ndarray) : list Element :=
  match a with
  | Scalar x => [x]
  | Axis items => concat (map ravel items)
  end.

(** [a.shape == sh], for the regular arrays numpy builds. *)
Fixpoint has_shape (sh : list nat) (a : ndarray) : bool :=
  match sh, a with
  | [], Scalar _ => true
  | n :: sh', Axis items =>
      bool_decide (length items = n) && forallb (has_shape sh') items
  | _, _ => false
  end.


(** Number of scalars of an array of shape [sh]. *)
Definition shape_size (sh : list nat) : nat := foldr Nat.mul 1%nat sh.


(** ** Python builtins *)

(** Truth value of a [str]: the empty string is false. *)
Definition str_truthy (s : string) : bool :=
  match s with
  | EmptyString => false
  | String _ _ => true
  end.

(** [sub in s] for two [str]: [sub] occurs in [s] as a substring. *)
Fixpoint str_in (sub s : string) : bool :=
  String.prefix sub s ||
  match s with
  | EmptyString => false
  | String _ s' => str_in sub s'
  end.

Definition LF : string := String (ascii_of_nat 10) EmptyString.
Definition CR : string := String (ascii_of_nat 13) EmptyString.

(** [a < b] on tuples [(int, str)]: the first components that differ decide. *)
Definition tuple_lt (a b : Z * string) : bool :=
  if negb (a.1 =? b.1) then a.1 <? b.1
  else if negb (String.eqb a.2 b.2) then String.ltb a.2 b.2
  else false.

(** The order [list.sort(reverse=True)] establishes between neighbours:
    the later one is not greater. *)
Definition tuple_ge (a b : Z * string) : Prop := tuple_lt a b = false.

Global Instance tuple_ge_dec : RelDecision tuple_ge.
Proof. intros a b. unfold tuple_ge. apply _. Defined.

(** [l.sort(reverse=True)]; a stable merge sort, as Python's. *)
Definition sort_reverse (l : list (Z * string)) : list (Z * string) :=
  merge_sort tuple_ge l.

(** ['{}'.format(n)] for an [int]. *)
Definition str_of_int (n : Z) : string := NilZero.string_of_int (Z.to_int n).

(** ['{} {}'.format(count, element)] *)
Definition format_count_element (count : Z) (element : string) : string :=
  str_of_int count +:+ " " +:+ element.

(** [collections.Counter(lst)] *)
Definition Counter (lst : list Element) : gmap Element Z :=
  foldl (λ m e, <[e := default 0 (m !! e) + 1]> m) ∅ lst.

(** [sum(values)] *)
Definition py_sum (values : list Z) : Z := foldl Z.add 0 values.

(** [os.path.join(a, b)] on a POSIX system. *)
Definition os_path_join (a b : string) : string :=
  if String.prefix "/" b then b
  else if bool_decide (a = "") || String.prefix "/" (String.rev a) then a +:+ b
  else a +:+ "/" +:+ b.

(** ** Beam transforms *)

Definition PCollection (A : Type) : Type := list A.

Module beam.

(** [beam.Map(fn)] with a function that may raise. *)
Definition Map {A B} (fn : A → result B) (pcoll : PCollection A)
  : result (PCollection B) := mapM fn pcoll.

(** [beam.FlatMap(fn)] *)
Definition FlatMap {A B} (fn : A → list B) (pcoll : PCollection A)
  : PCollection B := concat (map fn pcoll).

(** [beam.Filter(fn)] *)
Definition Filter {A} (fn : A → bool) (pcoll : PCollection A)
  : PCollection A := List.filter fn pcoll.

(** [beam.KvSwap()] *)
Definition KvSwap {K V} (pcoll : PCollection (K * V)) : PCollection (V * K) :=
  map (λ kv, (kv.2, kv.1)) pcoll.

(** [beam.GroupByKey()]: every key with the values delivered for it. *)
Definition GroupByKey (pcoll : PCollection (Element * Z))
  : gmap Element (list Z) :=
  foldr (λ kv m, <[kv.1 := kv.2 :: default [] (m !! kv.1)]> m) ∅ pcoll.

(** The table [beam.CombinePerKey(sum)] computes: one sum per key. *)
Definition CombinePerKey_sum_table (pcoll : PCollection (Element * Z))
  : gmap Element Z := py_sum <$> GroupByKey pcoll.

(** [beam.CombinePerKey(sum)]: the table as a collection of [(key, sum)]. *)
Definition CombinePerKey_sum (pcoll : PCollection (Element * Z))
  : PCollection (Element * Z) := map_to_list (CombinePerKey_sum_table pcoll).

(** [beam.transforms.combiners.Top.Largest(n)]: a single list, the [n]
    greatest elements, greatest first. *)
Definition Top_Largest (n : Z) (pcoll : PCollection (Z * string))
  : PCollection (list (Z * string)) :=
  [take (Z.to_nat n) (sort_reverse pcoll)].

(** [beam.transforms.Reshuffle()] keeps the elements. *)
Definition Reshuffle {A} (pcoll : PCollection A) : PCollection A := pcoll.

(** A [beam.CombineFn]. *)
Record CombineFn (In Acc Out : Type) : Type := {
  create_accumulator : Acc;
  add_input : Acc → In → Acc;
  merge_accumulators : list Acc → Acc;
  extract_output : Acc → Out
}.
Arguments create_accumulator {In Acc Out} _.
Arguments add_input {In Acc Out} _ _ _.
Arguments merge_accumulators {In Acc Out} _ _.
Arguments extract_output {In Acc Out} _ _.

(** [beam.CombineGlobally(fn)], and [.without_defaults()] when
    [has_defaults] is false.  The input comes in the bundles the runner
    made of it: every non-empty bundle is folded into an accumulator of its
    own, the accumulators are merged and the output extracted.  On an empty
    input the transform with defaults yields the output of the empty
    accumulator, the transform without defaults yields an empty
    collection. *)
Definition CombineGlobally {In Acc Out} (fn : CombineFn In Acc Out)
    (has_defaults : bool) (bundles : list (list In)) : PCollection Out :=
  match List.filter (λ b, negb (bool_decide (b = @nil In))) bundles with
  | [] =>
      if has_defaults
      then [extract_output fn (create_accumulator fn)]
      else []
  | bs =>
      [extract_output fn
         (merge_accumulators fn
            (map (λ b, foldl (add_input fn) (create_accumulator fn) b) bs))]
  end.

End beam.

(** ** tensorflow_transform.analyzers: the analyzer specifications *)

Module analyzers.

(** [analyzers._UniquesSpec] *)
Record _UniquesSpec : Type := {
  top_k : option Z;
  frequency_threshold : option Z;
  store_frequency : bool;
  vocab_filename : string
}.

(** [analyzers.CombinerSpec]: the four operations of a combiner over
    batches, and whether the object is a [_QuantilesCombinerSpec]. *)
Record CombinerSpec (Acc : Type) : Type := {
  is_QuantilesCombinerSpec : bool;
  create_accumulator : Acc;
  add_input : Acc → list ndarray → Acc;
  merge_accumulators : list Acc → Acc;
  extract_output : Acc → list ndarray
}.
Arguments is_QuantilesCombinerSpec {Acc} _.
Arguments create_accumulator {Acc} _.
Arguments add_input {Acc} _ _ _.
Arguments merge_accumulators {Acc} _ _.
Arguments extract_output {Acc} _ _.

End analyzers.

(** The object handed to [_AnalyzerImpl] as [spec]: an instance of
    [_UniquesSpec], an instance of [CombinerSpec] (or of a subclass), or an
    object of some other class. *)
Inductive AnalyzerSpec : Type :=
  | UniquesSpec_obj (spec : analyzers._UniquesSpec)
  | CombinerSpec_obj {Acc : Type} (spec : analyzers.CombinerSpec Acc)
  | Other_obj (cls : string).

(** ** tensorflow_transform.beam.analyzer_impls *)

(** One batch: a list of arrays, one per input tensor of the analyzer. *)
Abbreviation Batch := (list ndarray) (only parsing).

(** What running an analyzer leaves behind: the collection it returns, the
    text files written and the samples sent to the metrics. *)
Record Outcome : Type := {
  returned : PCollection (list ndarray);
  files_written : list (string * list string);
  metrics : list (string * Z)
}.

Definition _flatten_value_to_list (batch_values : Batch) : result (list Element) :=
  match batch_values with
  | [batch_value] => Ok (ravel batch_value)
  | _ => Raise ValueError
  end.

(** The placeholder written for an empty vocabulary. *)
Definition sentinel : Z * string := (1, "49d0cd50-04bb-48c0-bc6f-5b575dce351a").

(** ['CountWithinList']: [six.iteritems(collections.Counter(lst))] *)
Definition CountWithinList (lst : list Element) : list (Element * Z) :=
  map_to_list (Counter lst).

(** The predicate of ['FilterProblematicStrings']. *)
Definition FilterProblematicStrings (kv : Element * Z) : bool :=
  str_truthy kv.1 && negb (str_in LF kv.1) && negb (str_in CR kv.1).

(** The predicate of ['FilterByFrequencyThreshold']. *)
Definition FilterByFrequencyThreshold (frequency_threshold : Z)
    (kv : Z * Element) : bool :=
  frequency_threshold <=? kv.1.

(** The local [counts] of [order_by_decreasing_counts] once sorted. *)
Definition sorted_counts (counts_iter : list (Z * Element)) : list (Z * Element) :=
  let counts := counts_iter in
  let counts := if bool_decide (counts = []) then [sentinel] else counts in
  sort_reverse counts.

Definition order_by_decreasing_counts (counts_iter : list (Z * Element))
    (store_frequency : bool) : list string :=
  let counts := sorted_counts counts_iter in
  if store_frequency
  then map (λ ce, format_count_element ce.1 ce.2) counts
  else map (λ ce, ce.2) counts.

(** The table of ['CountGlobally'], before any filter. *)
Definition CountGlobally_table (lists : PCollection (list Element))
    : gmap Element Z :=
  beam.CombinePerKey_sum_table (beam.FlatMap CountWithinList lists).

(** [counts] after ['CountGlobally']. *)
Definition counts_CountGlobally (lists : PCollection (list Element))
    : PCollection (Element * Z) :=
  beam.CombinePerKey_sum (beam.FlatMap CountWithinList lists).

(** [counts] after ['FilterProblematicStrings'] and ['SwapElementsAndCounts']. *)
Definition counts_SwapElementsAndCounts (lists : PCollection (list Element))
    : PCollection (Z * Element) :=
  beam.KvSwap (beam.Filter FilterProblematicStrings (counts_CountGlobally lists)).

(** [counts] after the [if frequency_threshold is not None] statement. *)
Definition counts_FilterByFrequencyThreshold (spec : analyzers._UniquesSpec)
    (lists : PCollection (list Element)) : PCollection (Z * Element) :=
  let counts := counts_SwapElementsAndCounts lists in
  match analyzers.frequency_threshold spec with
  | Some t => beam.Filter (FilterByFrequencyThreshold t) counts
  | None => counts
  end.

(** [counts] after the [if top_k is not None] statement and ['Reshard']: the
    collection that reaches [order_by_decreasing_counts]. *)
Definition final_counts (spec : analyzers._UniquesSpec)
    (lists : PCollection (list Element)) : PCollection (Z * Element) :=
  let counts := counts_FilterByFrequencyThreshold spec lists in
  let counts :=
    match analyzers.top_k spec with
    | Some k => beam.FlatMap (λ lst, lst) (beam.Top_Largest k counts)
    | None => counts
    end in
  beam.Reshuffle counts.

Definition opt_nonneg (o : option Z) : bool :=
  match o with
  | None => true
  | Some n => 0 <=? n
  end.

(** [_UniquesAnalyzerImpl.expand].  [beam.io.WriteToText] is an external
    primitive, taken to succeed: [files_written] holds the path and the lines
    it is handed. *)
Definition _UniquesAnalyzerImpl_expand (spec : analyzers._UniquesSpec)
    (temp_assets_dir : string) (pcoll : PCollection Batch) : result Outcome :=
  _ ← py_assert (opt_nonneg (analyzers.top_k spec));
  _ ← py_assert (opt_nonneg (analyzers.frequency_threshold spec));
  lists ← beam.Map _flatten_value_to_list pcoll;
  let counts := final_counts spec lists in
  let lines := order_by_decreasing_counts counts (analyzers.store_frequency spec) in
  let vocabulary_file :=
    os_path_join temp_assets_dir (analyzers.vocab_filename spec) in
  Ok {| returned := [[Scalar vocabulary_file]];
        files_written := [(vocabulary_file, lines)];
        metrics := [("vocabulary_size", Z.of_nat (length (sorted_counts counts)))] |}.

(** [_CombineFnWrapper(spec, serialized_tf_config)]: the four operations of
    the specification.  The local state a [_QuantilesCombinerSpec] sets up in
    [initialize_local_state] is private to its operations. *)
Definition _CombineFnWrapper {Acc} (spec : analyzers.CombinerSpec Acc)
    : beam.CombineFn (list ndarray) Acc (list ndarray) :=
  {| beam.create_accumulator := analyzers.create_accumulator spec;
     beam.add_input := analyzers.add_input spec;
     beam.merge_accumulators := analyzers.merge_accumulators spec;
     beam.extract_output := analyzers.extract_output spec |}.

(** The runner delivers the batches of [pcoll] to the combiner in bundles;
    [bundles] is that division, [concat bundles] the collection. *)
Definition _CombinerAnalyzerImpl_expand {Acc} (spec : analyzers.CombinerSpec Acc)
    (bundles : list (PCollection Batch)) : result Outcome :=
  let combine_ptransform := beam.CombineGlobally (_CombineFnWrapper spec) in
  let has_defaults :=
    if negb (analyzers.is_QuantilesCombinerSpec spec) then false else true in
  Ok {| returned := combine_ptransform has_defaults bundles;
        files_written := [];
        metrics := [] |}.

Definition _AnalyzerImpl_expand (spec : AnalyzerSpec) (temp_assets_dir : string)
    (bundles : list (PCollection Batch)) : result Outcome :=
  match spec with
  | UniquesSpec_obj s => _UniquesAnalyzerImpl_expand s temp_assets_dir (concat bundles)
  | CombinerSpec_obj s => _CombinerAnalyzerImpl_expand s bundles
  | Other_obj cls => Raise (NotImplementedError cls)
  end.

(** ** Notions used in the statements *)

(** [x] comes strictly before [y] in the vocabulary: a greater count, or the
    same count and a greater element. *)
Definition entry_gt (x y : Z * Element) : Prop :=
  y.1 < x.1 ∨ (y.1 = x.1 ∧ String.ltb y.2 x.2 = true).

(** The batches of [pcoll] flattened, when each holds one array. *)
Definition flattened (pcoll : PCollection Batch) : PCollection (list Element) :=
  map (λ batch_values, concat (map ravel batch_values)) pcoll.

(** [b'] holds as many arrays as [b], and the same scalars in some order. *)
Definition batch_permuted (b b' : Batch) : Prop :=
  length b = length b' ∧ concat (map ravel b) ≡ₚ concat (map ravel b').

(** [pcoll'] is [pcoll] with the batches delivered in another order and the
    scalars of each batch in another order. *)
Definition batches_rearranged (pcoll pcoll' : PCollection Batch) : Prop :=
  ∃ mid, pcoll ≡ₚ mid ∧ Forall2 batch_permuted mid pcoll'.

(** The values delivered for the key [e]. *)
Definition values_of (e : Element) (kvs : list (Element * Z)) : list Z :=
  map snd (List.filter (λ kv, bool_decide (kv.1 = e)) kvs).

(** The character [c] occurs in [s]. *)
Definition contains_char (c : ascii) (s : string) : Prop :=
  In c (list_ascii_of_string s).

(** [e] is empty or holds a line feed or a carriage return. *)
Definition problematic (e : Element) : Prop :=
  e = "" ∨ contains_char (ascii_of_nat 10) e ∨ contains_char (ascii_of_nat 13) e.

(** The assertions of [expand] hold and every batch holds one array. *)
Definition valid_input (spec : analyzers._UniquesSpec) (pcoll : PCollection Batch)
    : Prop :=
  opt_nonneg (analyzers.top_k spec) = true ∧
  opt_nonneg (analyzers.frequency_threshold spec) = true ∧
  Forall (λ b, length b = 1%nat) pcoll.

(** The line written for an entry. *)
Definition line_of (store_frequency : bool) (ce : Z * Element) : string :=
  if store_frequency then str_of_int ce.1 +:+ " " +:+ ce.2 else ce.2.

(** ** Concrete inputs *)

(** A combiner that counts the scalars it is given; its output is the count
    in decimal. *)
Definition size_spec : analyzers.CombinerSpec Z :=
  {| analyzers.is_QuantilesCombinerSpec := false;
     analyzers.create_accumulator := 0;
     analyzers.add_input := λ acc batch,
       acc + Z.of_nat (length (concat (map ravel batch)));
     analyzers.merge_accumulators := py_sum;
     analyzers.extract_output := λ acc, [Scalar (str_of_int acc)] |}.

(** A [_UniquesSpec] writing to the file [vocab]. *)
Definition spec_of (top_k frequency_threshold : option Z) (store_frequency : bool)
    : analyzers._UniquesSpec :=
  {| analyzers.top_k := top_k;
     analyzers.frequency_threshold := frequency_threshold;
     analyzers.store_frequency := store_frequency;
     analyzers.vocab_filename := "vocab" |}.

Definition array_2x3 : ndarray :=
  Axis [Axis [Scalar "a"; Scalar "b"; Scalar "c"];
        Axis [Scalar "d"; Scalar "e"; Scalar "f"]].

Definition bad_line : Element := "x" +:+ LF +:+ "y".

Definition abacab : PCollection Batch :=
  [[Axis [Scalar "a"; Scalar "b"; Scalar "a"]];
   [Axis [Axis [Scalar "c"; Scalar "b"]; Axis [Scalar "a"; Scalar "d"]]]].

(** [size_spec] declared as a [_QuantilesCombinerSpec]. *)
Definition size_spec_with_default : analyzers.CombinerSpec Z :=
  {| analyzers.is_QuantilesCombinerSpec := true;
     analyzers.create_accumulator := analyzers.create_accumulator size_spec;
     analyzers.add_input := analyzers.add_input size_spec;
     analyzers.merge_accumulators := analyzers.merge_accumulators size_spec;
     analyzers.extract_output := analyzers.extract_output size_spec |}.

(** ** Notions used in the further properties *)

(** An optional bound that is set and negative. *)
Definition negative (o : option Z) : Prop := ∃ n, o = Some n ∧ n < 0.

(** Number of times [e] occurs in the flattened batches. *)
Definition occurrences (e : Element) (lists : PCollection (list Element)) : Z :=
  Z.of_nat (count_occ string_dec (concat lists) e).

(** The element of each entry. *)
Definition elements_of (counts : list (Z * Element)) : list Element :=
  map snd counts.

(** * Properties *)

(** Membership in lists built with [::] and [++]. *)
Ltac list_mem :=
  rewrite ?elem_of_app, ?elem_of_cons, ?list_elem_of_singleton, ?elem_of_nil in *;
  intuition congruence.

(** ** The order on count entries *)

Lemma string_ltb_leb (s1 s2 : string) : String.ltb s1 s2 = negb (String.leb s2 s1).
Proof.
  unfold String.ltb, String.leb. rewrite (String.compare_antisym s1 s2).
  by destruct (String.compare s2 s1).
Qed.

Lemma string_ltb_irrefl (s : string) : String.ltb s s = false.
Proof.
  rewrite string_ltb_leb. destruct (String.leb_total s s) as [->| ->]; done.
Qed.

Lemma string_eqb_false (s1 s2 : string) : s1 ≠ s2 → String.eqb s1 s2 = false.
Proof. intros Hne. by apply String.eqb_neq. Qed.

Lemma tuple_lt_true (a b : Z * string) :
  tuple_lt a b = true ↔ a.1 < b.1 ∨ (a.1 = b.1 ∧ String.ltb a.2 b.2 = true).
Proof.
  unfold tuple_lt. destruct (Z.eqb_spec a.1 b.1) as [Heq|Hne]; simpl.
  - destruct (String.eqb_spec a.2 b.2) as [Heq2|Hne2]; simpl.
    + rewrite Heq2, string_ltb_irrefl. split; [done|]. intros [?|[_ ?]]; [lia|done].
    + split; [by right|]. intros [?|[_ ?]]; [lia|done].
  - rewrite Z.ltb_lt. split; [by left|]. intros [?|[? _]]; [done|lia].
Qed.

Lemma tuple_ge_alt (a b : Z * string) :
  tuple_ge a b ↔ b.1 < a.1 ∨ (a.1 = b.1 ∧ String.le b.2 a.2).
Proof.
  unfold tuple_ge. rewrite <-not_true_iff_false, tuple_lt_true, string_ltb_leb.
  unfold String.le. destruct (String.leb b.2 a.2); simpl; split.
  - intros H. destruct (Z.lt_trichotomy a.1 b.1) as [?|[?|?]]; [|by right|by left].
    destruct H. by left.
  - intros [?|[? _]] [?|[? ?]]; done || lia.
  - intros H. destruct (Z.lt_trichotomy a.1 b.1) as [?|[?|?]]; [| |by left].
    + destruct H. by left.
    + destruct H. by right.
  - intros [?|[? []]] [?|[? ?]]; lia.
Qed.

Global Instance tuple_ge_total : Total tuple_ge.
Proof.
  intros a b. rewrite !tuple_ge_alt.
  destruct (Z.lt_trichotomy a.1 b.1) as [?|[?|?]]; [by right; left| |by left; left].
  destruct (total String.le a.2 b.2); [right|left]; right; done.
Qed.

Global Instance tuple_ge_trans : Transitive tuple_ge.
Proof.
  intros a b c. rewrite !tuple_ge_alt.
  intros [?|[? ?]] [?|[? ?]]; try (left; lia).
  right. split; [lia|]. by etrans.
Qed.

Global Instance tuple_ge_antisymm : AntiSymm (=) tuple_ge.
Proof.
  intros [c1 e1] [c2 e2]. rewrite !tuple_ge_alt. simpl.
  intros [?|[? ?]] [?|[? ?]]; try lia.
  f_equal; [done|]. by apply (anti_symm String.le).
Qed.

Lemma tuple_ge_ne_gt (a b : Z * string) : tuple_ge a b → a ≠ b → entry_gt a b.
Proof.
  rewrite tuple_ge_alt. unfold entry_gt. intros [?|[Heq Hle]] Hne; [by left|].
  right. split; [done|]. rewrite string_ltb_leb.
  destruct (String.leb a.2 b.2) eqn:Hab; [|done].
  destruct Hne. destruct a, b; simpl in *. f_equal; [done|].
  apply (anti_symm String.le); [|done]. unfold String.le. by rewrite Hab.
Qed.


Lemma entry_gt_irrefl (a : Z * string) : ¬ entry_gt a a.
Proof.
  unfold entry_gt. intros [?|[_ H]]; [lia|]. by rewrite string_ltb_irrefl in H.
Qed.

(** ** [list.sort(reverse=True)] *)

Lemma sort_reverse_perm (l : list (Z * string)) : sort_reverse l ≡ₚ l.
Proof. apply merge_sort_Permutation. Qed.

Lemma sort_reverse_sorted (l : list (Z * string)) :
  StronglySorted tuple_ge (sort_reverse l).
Proof. apply StronglySorted_merge_sort; apply _. Qed.

Lemma sort_reverse_perm_eq (l1 l2 : list (Z * string)) :
  l1 ≡ₚ l2 → sort_reverse l1 = sort_reverse l2.
Proof.
  intros Hp. apply (StronglySorted_unique tuple_ge); try apply sort_reverse_sorted.
  by rewrite !sort_reverse_perm.
Qed.

Lemma sort_reverse_of_sorted (l : list (Z * string)) :
  StronglySorted tuple_ge l → sort_reverse l = l.
Proof.
  intros Hs. apply (StronglySorted_unique tuple_ge); [apply sort_reverse_sorted|done|].
  apply sort_reverse_perm.
Qed.

Lemma sort_reverse_idem (l : list (Z * string)) :
  sort_reverse (sort_reverse l) = sort_reverse l.
Proof. apply sort_reverse_of_sorted, sort_reverse_sorted. Qed.

Lemma StronglySorted_ge_gt (l : list (Z * string)) :
  NoDup l → StronglySorted tuple_ge l → StronglySorted entry_gt l.
Proof.
  induction l as [|x l IH]; [constructor|].
  intros [Hx Hnd]%NoDup_cons [Hs Hall]%StronglySorted_inv.
  constructor; [by apply IH|].
  apply Forall_forall. intros y Hy. apply tuple_ge_ne_gt.
  - rewrite Forall_forall in Hall. by apply Hall.
  - intros ->. done.
Qed.


Lemma StronglySorted_take {A} (R : relation A) (n : nat) (l : list A) :
  StronglySorted R l → StronglySorted R (take n l).
Proof.
  intros Hs. rewrite <-(take_drop n l) in Hs. by apply StronglySorted_app_1_l in Hs.
Qed.

(** ** Counting *)

Lemma foldl_add_shift (a : Z) (l : list Z) : foldl Z.add a l = a + py_sum l.
Proof.
  unfold py_sum. revert a. induction l as [|x l IH]; intros a; simpl; [lia|].
  rewrite (IH (a + x)), (IH (0 + x)). lia.
Qed.

Lemma py_sum_cons (x : Z) (l : list Z) : py_sum (x :: l) = x + py_sum l.
Proof. unfold py_sum at 1. simpl. apply foldl_add_shift. Qed.

Lemma py_sum_app (l1 l2 : list Z) : py_sum (l1 ++ l2) = py_sum l1 + py_sum l2.
Proof.
  induction l1 as [|x l1 IH]; simpl; [done|]. rewrite !py_sum_cons, IH. lia.
Qed.

Lemma py_sum_perm (l1 l2 : list Z) : l1 ≡ₚ l2 → py_sum l1 = py_sum l2.
Proof.
  induction 1 as [|x l1 l2 _ IH|x y l|l1 l2 l3 _ IH1 _ IH2];
    rewrite ?py_sum_cons; [done|by rewrite IH|lia|congruence].
Qed.

Lemma Counter_snoc (l : list Element) (x : Element) :
  Counter (l ++ [x]) = <[x := default 0 (Counter l !! x) + 1]> (Counter l).
Proof. unfold Counter. by rewrite foldl_snoc. Qed.

Lemma Counter_lookup (l : list Element) (e : Element) :
  Counter l !! e =
  if decide (e ∈ l) then Some (Z.of_nat (count_occ string_dec l e)) else None.
Proof.
  induction l as [|x l IH] using rev_ind.
  - rewrite decide_False by apply not_elem_of_nil. done.
  - rewrite Counter_snoc, count_occ_app. simpl.
    destruct (decide (x = e)) as [->|Hne].
    + rewrite lookup_insert_eq, IH.
      rewrite (decide_True (P := e ∈ l ++ [e])) by list_mem.
      destruct (string_dec e e); [|done].
      destruct (decide (e ∈ l)) as [Hin|Hnin]; simpl; f_equal; [lia|].
      rewrite list_elem_of_In in Hnin.
      apply (count_occ_not_In string_dec) in Hnin. lia.
    + rewrite lookup_insert_ne, IH by done.
      destruct (string_dec x e); [done|].
      destruct (decide (e ∈ l)) as [Hin|Hnin].
      * rewrite decide_True by list_mem. f_equal. lia.
      * rewrite decide_False by list_mem. done.
Qed.

Lemma values_of_app (e : Element) (l1 l2 : list (Element * Z)) :
  values_of e (l1 ++ l2) = values_of e l1 ++ values_of e l2.
Proof. unfold values_of. by rewrite List.filter_app, map_app. Qed.

Lemma values_of_absent (e : Element) (kvs : list (Element * Z)) :
  e ∉ kvs.*1 → values_of e kvs = [].
Proof.
  induction kvs as [|kv kvs IH]; [done|]. intros Hnin.
  rewrite fmap_cons, not_elem_of_cons in Hnin. destruct Hnin as [Hne Hnin].
  unfold values_of in *. simpl. rewrite bool_decide_eq_false_2 by done.
  by apply IH.
Qed.

Lemma values_of_present (e : Element) (v : Z) (kvs : list (Element * Z)) :
  NoDup kvs.*1 → (e, v) ∈ kvs → values_of e kvs = [v].
Proof.
  induction kvs as [|kv kvs IH]; [by intros _ ?%elem_of_nil|].
  rewrite fmap_cons. intros [Hnin Hnd]%NoDup_cons [<-|Hin]%elem_of_cons.
  - unfold values_of. simpl. rewrite bool_decide_eq_true_2 by done. simpl.
    f_equal. by apply values_of_absent.
  - assert (kv.1 ≠ e) as Hne.
    { intros <-. apply Hnin. apply list_elem_of_fmap. by exists (kv.1, v). }
    unfold values_of in *. simpl. rewrite bool_decide_eq_false_2 by done.
    by apply IH.
Qed.

Lemma values_of_map_to_list (e : Element) (m : gmap Element Z) :
  values_of e (map_to_list m) = match m !! e with Some v => [v] | None => [] end.
Proof.
  destruct (m !! e) as [v|] eqn:Hm.
  - apply values_of_present; [apply NoDup_fst_map_to_list|].
    by apply elem_of_map_to_list.
  - apply values_of_absent. intros ([k v] & -> & Hin)%list_elem_of_fmap.
    apply elem_of_map_to_list in Hin. simpl in *. congruence.
Qed.

Lemma GroupByKey_lookup (e : Element) (kvs : list (Element * Z)) :
  beam.GroupByKey kvs !! e =
  match values_of e kvs with [] => None | vs => Some vs end.
Proof.
  induction kvs as [|kv kvs IH]; [done|].
  unfold beam.GroupByKey in *. simpl. unfold values_of in *. simpl.
  destruct (decide (kv.1 = e)) as [<-|Hne].
  - rewrite lookup_insert_eq, bool_decide_eq_true_2 by done. simpl.
    rewrite IH. by destruct (map snd _).
  - rewrite lookup_insert_ne, bool_decide_eq_false_2 by done. done.
Qed.

Lemma values_of_CountWithinList (e : Element) (lists : list (list Element)) :
  let vs := values_of e (beam.FlatMap CountWithinList lists) in
  py_sum vs = Z.of_nat (count_occ string_dec (concat lists) e) ∧
  (vs = [] ↔ e ∉ concat lists).
Proof.
  unfold beam.FlatMap. induction lists as [|l lists [IH1 IH2]]; simpl.
  - split; [done|]. split; [intros _; apply not_elem_of_nil|done].
  - rewrite values_of_app, py_sum_app, count_occ_app, IH1.
    unfold CountWithinList. rewrite values_of_map_to_list, Counter_lookup.
    destruct (decide (e ∈ l)) as [Hin|Hnin].
    + split; [rewrite py_sum_cons; unfold py_sum; simpl; lia|].
      split; [done|]. intros []. list_mem.
    + split.
      * rewrite list_elem_of_In in Hnin.
        apply (count_occ_not_In string_dec) in Hnin. rewrite Hnin. done.
      * simpl. rewrite IH2. list_mem.
Qed.

Lemma CountGlobally_table_lookup (lists : list (list Element)) (e : Element) :
  CountGlobally_table lists !! e =
  if decide (e ∈ concat lists)
  then Some (Z.of_nat (count_occ string_dec (concat lists) e))
  else None.
Proof.
  unfold CountGlobally_table, beam.CombinePerKey_sum_table.
  rewrite lookup_fmap, GroupByKey_lookup.
  destruct (values_of_CountWithinList e lists) as [Hsum Hnil].
  destruct (values_of e _) as [|v vs] eqn:Hvs.
  - rewrite decide_False; [done|]. by apply Hnil.
  - rewrite decide_True; [simpl; by rewrite Hsum|].
    destruct (decide (e ∈ concat lists)) as [|Hn]; [done|].
    apply Hnil in Hn. done.
Qed.

Lemma map_to_list_counts_insert (m : gmap Element Z) (x : Element) (v : Z) :
  py_sum (map snd (map_to_list (<[x := v]> m))) =
  py_sum (map snd (map_to_list (delete x m))) + v.
Proof.
  rewrite <-insert_delete_eq.
  rewrite (py_sum_perm _ (map snd ((x, v) :: map_to_list (delete x m)))).
  - simpl. rewrite py_sum_cons. lia.
  - apply Permutation_map, map_to_list_insert, lookup_delete_eq.
Qed.

Lemma table_total (L : list Element) (m : gmap Element Z) :
  (∀ e, m !! e = if decide (e ∈ L)
                 then Some (Z.of_nat (count_occ string_dec L e)) else None) →
  py_sum (map snd (map_to_list m)) = Z.of_nat (length L).
Proof.
  revert m. induction L as [|x L IH]; intros m Hm.
  - assert (m = ∅) as ->; [|by rewrite map_to_list_empty].
    apply map_eq. intros e. rewrite Hm, lookup_empty.
    rewrite decide_False by apply not_elem_of_nil. done.
  - set (m' := if decide (x ∈ L)
               then <[x := Z.of_nat (count_occ string_dec L x)]> m
               else delete x m).
    assert (∀ e, m' !! e = if decide (e ∈ L)
                 then Some (Z.of_nat (count_occ string_dec L e)) else None) as Hm'.
    { intros e. unfold m'. destruct (decide (e = x)) as [->|Hne].
      - destruct (decide (x ∈ L)); [by rewrite lookup_insert_eq|].
        by rewrite lookup_delete_eq.
      - assert (m !! e = if decide (e ∈ L)
                 then Some (Z.of_nat (count_occ string_dec L e)) else None) as He.
        { rewrite Hm. rewrite (count_occ_cons_neq string_dec) by done.
          destruct (decide (e ∈ L)).
          - by rewrite decide_True by list_mem.
          - by rewrite decide_False by list_mem. }
        destruct (decide (x ∈ L)).
        + by rewrite lookup_insert_ne.
        + by rewrite lookup_delete_ne. }
    specialize (IH m' Hm').
    assert (m = <[x := Z.of_nat (S (count_occ string_dec L x))]> m) as Hmx.
    { symmetry. apply insert_id. rewrite Hm, decide_True by list_mem.
      by rewrite (count_occ_cons_eq string_dec). }
    rewrite Hmx, map_to_list_counts_insert.
    unfold m' in IH. destruct (decide (x ∈ L)) as [Hin|Hnin].
    + rewrite map_to_list_counts_insert in IH. simpl length. lia.
    + rewrite list_elem_of_In in Hnin.
      apply (count_occ_not_In string_dec) in Hnin. rewrite Hnin.
      simpl length. lia.
Qed.

(** ** The transforms of the vocabulary pipeline *)

Lemma elem_of_Filter {A} (fn : A → bool) (pcoll : PCollection A) (x : A) :
  x ∈ beam.Filter fn pcoll ↔ x ∈ pcoll ∧ fn x = true.
Proof. unfold beam.Filter. rewrite !list_elem_of_In. apply filter_In. Qed.

Lemma NoDup_Filter {A} (fn : A → bool) (pcoll : PCollection A) :
  NoDup pcoll → NoDup (beam.Filter fn pcoll).
Proof.
  induction 1 as [|x l Hx _ IH]; [constructor|].
  unfold beam.Filter in *. simpl. destruct (fn x); [|done].
  constructor; [|done]. intros [? _]%elem_of_Filter. done.
Qed.

Lemma elem_of_KvSwap {K V} (pcoll : PCollection (K * V)) (k : K) (v : V) :
  (v, k) ∈ beam.KvSwap pcoll ↔ (k, v) ∈ pcoll.
Proof.
  unfold beam.KvSwap. rewrite list_elem_of_fmap. split.
  - intros ([k' v'] & [= -> ->] & Hin). done.
  - intros Hin. by exists (k, v).
Qed.

Lemma NoDup_KvSwap {K V} (pcoll : PCollection (K * V)) :
  NoDup pcoll → NoDup (beam.KvSwap pcoll).
Proof.
  unfold beam.KvSwap. apply (NoDup_fmap_2 (λ kv : K * V, (kv.2, kv.1))).
Qed.

Lemma Map_flatten_Ok (pcoll : PCollection Batch) :
  Forall (λ b, length b = 1%nat) pcoll →
  beam.Map _flatten_value_to_list pcoll = Ok (flattened pcoll).
Proof.
  unfold beam.Map. induction 1 as [|b pcoll Hb _ IH]; [done|].
  simpl. rewrite IH. destruct b as [|a [|? ?]]; try done.
  simpl. by rewrite app_nil_r.
Qed.

Lemma Map_flatten_inv (pcoll : PCollection Batch) (r : result (list (list Element))) :
  beam.Map _flatten_value_to_list pcoll = r →
  (Forall (λ b, length b = 1%nat) pcoll ∧ r = Ok (flattened pcoll)) ∨
  (¬ Forall (λ b, length b = 1%nat) pcoll ∧ r = Raise ValueError).
Proof.
  intros <-. destruct (decide (Forall (λ b, length b = 1%nat) pcoll)) as [Hall|Hn].
  - left. split; [done|]. by apply Map_flatten_Ok.
  - right. split; [done|]. unfold beam.Map.
    induction pcoll as [|b pcoll IH]; [by destruct Hn|].
    simpl. destruct b as [|a [|? ?]]; try done. simpl.
    rewrite IH; [done|]. intros Hall. apply Hn. by constructor.
Qed.

Lemma elem_of_counts_CountGlobally (lists : list (list Element)) (e : Element) (c : Z) :
  (e, c) ∈ counts_CountGlobally lists ↔ CountGlobally_table lists !! e = Some c.
Proof. apply elem_of_map_to_list. Qed.

Lemma NoDup_counts_CountGlobally (lists : list (list Element)) :
  NoDup (counts_CountGlobally lists).
Proof. apply NoDup_map_to_list. Qed.

Lemma elem_of_counts_SwapElementsAndCounts (lists : list (list Element))
    (c : Z) (e : Element) :
  (c, e) ∈ counts_SwapElementsAndCounts lists ↔
  CountGlobally_table lists !! e = Some c ∧ FilterProblematicStrings (e, c) = true.
Proof.
  unfold counts_SwapElementsAndCounts.
  by rewrite elem_of_KvSwap, elem_of_Filter, elem_of_counts_CountGlobally.
Qed.

Lemma NoDup_counts_SwapElementsAndCounts (lists : list (list Element)) :
  NoDup (counts_SwapElementsAndCounts lists).
Proof. apply NoDup_KvSwap, NoDup_Filter, NoDup_counts_CountGlobally. Qed.

Lemma elem_of_counts_FilterByFrequencyThreshold (spec : analyzers._UniquesSpec)
    (lists : list (list Element)) (x : Z * Element) :
  x ∈ counts_FilterByFrequencyThreshold spec lists ↔
  x ∈ counts_SwapElementsAndCounts lists ∧
  ∀ t, analyzers.frequency_threshold spec = Some t → t ≤ x.1.
Proof.
  unfold counts_FilterByFrequencyThreshold.
  destruct (analyzers.frequency_threshold spec) as [t|].
  - rewrite elem_of_Filter. unfold FilterByFrequencyThreshold.
    rewrite Z.leb_le. split.
    + intros [? ?]. split; [done|]. by intros ? [= <-].
    + intros [? Ht]. split; [done|]. by apply Ht.
  - split; [|by intros []]. intros ?. split; [done|]. by intros ? [=].
Qed.

Lemma NoDup_counts_FilterByFrequencyThreshold (spec : analyzers._UniquesSpec)
    (lists : list (list Element)) :
  NoDup (counts_FilterByFrequencyThreshold spec lists).
Proof.
  unfold counts_FilterByFrequencyThreshold.
  destruct (analyzers.frequency_threshold spec).
  - apply NoDup_Filter, NoDup_counts_SwapElementsAndCounts.
  - apply NoDup_counts_SwapElementsAndCounts.
Qed.

Lemma final_counts_unfold (spec : analyzers._UniquesSpec) (lists : list (list Element)) :
  final_counts spec lists =
  match analyzers.top_k spec with
  | Some k => take (Z.to_nat k)
                (sort_reverse (counts_FilterByFrequencyThreshold spec lists))
  | None => counts_FilterByFrequencyThreshold spec lists
  end.
Proof.
  unfold final_counts, beam.Reshuffle, beam.FlatMap, beam.Top_Largest.
  destruct (analyzers.top_k spec); [|done]. simpl. by rewrite app_nil_r.
Qed.

Lemma final_counts_sublist (spec : analyzers._UniquesSpec) (lists : list (list Element)) :
  ∃ l, l ≡ₚ counts_FilterByFrequencyThreshold spec lists ∧
       sublist (final_counts spec lists) l.
Proof.
  rewrite final_counts_unfold. destruct (analyzers.top_k spec).
  - eexists. split; [apply sort_reverse_perm|apply sublist_take].
  - by eexists.
Qed.

Lemma NoDup_final_counts (spec : analyzers._UniquesSpec) (lists : list (list Element)) :
  NoDup (final_counts spec lists).
Proof.
  destruct (final_counts_sublist spec lists) as (l & Hp & Hs).
  eapply sublist_NoDup; [|done]. rewrite Hp.
  apply NoDup_counts_FilterByFrequencyThreshold.
Qed.

Lemma elem_of_final_counts (spec : analyzers._UniquesSpec)
    (lists : list (list Element)) (x : Z * Element) :
  x ∈ final_counts spec lists → x ∈ counts_FilterByFrequencyThreshold spec lists.
Proof.
  destruct (final_counts_sublist spec lists) as (l & Hp & Hs).
  intros Hin. rewrite <-Hp. by eapply elem_of_sublist.
Qed.

(** The [n] greatest of a collection without repetition. *)
Lemma take_sort_reverse_greatest (n : nat) (l : list (Z * Element)) :
  NoDup l →
  let top := take n (sort_reverse l) in
  length top = (n `min` length l)%nat ∧
  StronglySorted entry_gt top ∧
  (∀ x, x ∈ top → x ∈ l) ∧
  (∀ x y, x ∈ l → x ∉ top → y ∈ top → entry_gt y x).
Proof.
  intros Hnd top. pose proof (sort_reverse_perm l) as Hp.
  pose proof (sort_reverse_sorted l) as Hs.
  assert (NoDup (sort_reverse l)) as Hnd' by by rewrite Hp.
  split; [|split; [|split]].
  - unfold top. by rewrite length_take, Hp.
  - apply StronglySorted_take, StronglySorted_ge_gt; done.
  - intros x Hx. rewrite <-Hp. eapply elem_of_sublist; [done|apply sublist_take].
  - intros x y Hx Hnx Hy. rewrite <-Hp, <-(take_drop n (sort_reverse l)) in Hx.
    apply elem_of_app in Hx as [Hx|Hx]; [done|].
    rewrite <-(take_drop n (sort_reverse l)) in Hs.
    apply tuple_ge_ne_gt; [|by intros ->].
    by eapply StronglySorted_app_1_elem_of.
Qed.

(** ** [order_by_decreasing_counts] *)

Lemma sorted_counts_nil : sorted_counts [] = [sentinel].
Proof. done. Qed.


Lemma sorted_counts_perm (counts_iter : list (Z * Element)) :
  sorted_counts counts_iter ≡ₚ
  if bool_decide (counts_iter = []) then [sentinel] else counts_iter.
Proof. unfold sorted_counts. apply sort_reverse_perm. Qed.

Lemma sorted_counts_perm_eq (l1 l2 : list (Z * Element)) :
  l1 ≡ₚ l2 → sorted_counts l1 = sorted_counts l2.
Proof.
  intros Hp. unfold sorted_counts. destruct l1 as [|x l1].
  - apply Permutation_nil_l in Hp. by subst l2.
  - destruct l2 as [|y l2]; [by apply Permutation_nil_r in Hp|].
    rewrite !bool_decide_eq_false_2 by done. by apply sort_reverse_perm_eq.
Qed.

Lemma sorted_counts_length (counts_iter : list (Z * Element)) :
  length (sorted_counts counts_iter) = (1 `max` length counts_iter)%nat.
Proof.
  rewrite sorted_counts_perm. destruct counts_iter; simpl; [done|lia].
Qed.

Lemma order_by_decreasing_counts_length (counts_iter : list (Z * Element)) (sf : bool) :
  length (order_by_decreasing_counts counts_iter sf) =
  length (sorted_counts counts_iter).
Proof. unfold order_by_decreasing_counts. destruct sf; by rewrite length_map. Qed.

(** ** The count table *)

Lemma concat_perm {A} (l1 l2 : list (list A)) : l1 ≡ₚ l2 → concat l1 ≡ₚ concat l2.
Proof.
  induction 1 as [|x l1 l2 _ IH|x y l|l1 l2 l3 _ IH1 _ IH2]; simpl.
  - done.
  - by rewrite IH.
  - rewrite !(assoc app). by rewrite (comm app y x).
  - by etrans.
Qed.

Lemma CountGlobally_table_perm (lists lists' : list (list Element)) :
  concat lists ≡ₚ concat lists' →
  CountGlobally_table lists = CountGlobally_table lists'.
Proof.
  intros Hp. apply map_eq. intros e. rewrite !CountGlobally_table_lookup.
  rewrite (proj1 (Permutation_count_occ string_dec _ _) Hp e).
  destruct (decide (e ∈ concat lists)) as [Hin|Hnin].
  - rewrite decide_True; [done|]. by rewrite <-Hp.
  - rewrite decide_False; [done|]. by rewrite <-Hp.
Qed.

Lemma batches_rearranged_flattened (pcoll pcoll' : PCollection Batch) :
  batches_rearranged pcoll pcoll' →
  Forall (λ b, length b = 1%nat) pcoll →
  Forall (λ b, length b = 1%nat) pcoll' ∧
  concat (flattened pcoll) ≡ₚ concat (flattened pcoll').
Proof.
  intros (mid & Hp & Hf) Hall. rewrite Hp in Hall.
  assert (concat (flattened pcoll) ≡ₚ concat (flattened mid)) as ->.
  { apply concat_perm. unfold flattened. by apply Permutation_map. }
  clear Hp pcoll. induction Hf as [|b b' mid pcoll' [Hlen Hb] _ IH]; [done|].
  apply Forall_cons in Hall as [Hb1 Hall]. destruct (IH Hall) as [IH1 IH2].
  split; [constructor; [congruence|done]|].
  simpl. by rewrite Hb, IH2.
Qed.

Lemma counts_CountGlobally_perm (lists lists' : list (list Element)) :
  concat lists ≡ₚ concat lists' →
  counts_CountGlobally lists = counts_CountGlobally lists'.
Proof.
  intros Hp. unfold counts_CountGlobally, beam.CombinePerKey_sum.
  fold (CountGlobally_table lists). fold (CountGlobally_table lists').
  by rewrite (CountGlobally_table_perm _ _ Hp).
Qed.

(** C1. Before any filter, the collection of counts that the vocabulary
    builder carries after ['CountGlobally'] holds, for every element that
    occurs in the flattened batches, exactly one pair, with the number of its
    occurrences, and no other pair: as a table it maps each element to that
    number.  The counts add up to the number of scalars observed.  The
    collection and the table are the same when the batches arrive in another
    order with their scalars in another order. *)
Theorem count_table_exact (pcoll : PCollection Batch)
    (lists : PCollection (list Element)) :
  beam.Map _flatten_value_to_list pcoll = Ok lists →
  (∀ e c, (e, c) ∈ counts_CountGlobally lists ↔
          e ∈ concat lists ∧ c = Z.of_nat (count_occ string_dec (concat lists) e)) ∧
  NoDup (map fst (counts_CountGlobally lists)) ∧
  (∀ e, CountGlobally_table lists !! e =
        if decide (e ∈ concat lists)
        then Some (Z.of_nat (count_occ string_dec (concat lists) e))
        else None) ∧
  py_sum (map snd (counts_CountGlobally lists)) = Z.of_nat (length (concat lists)) ∧
  (∀ pcoll', batches_rearranged pcoll pcoll' →
     ∃ lists', beam.Map _flatten_value_to_list pcoll' = Ok lists' ∧
               CountGlobally_table lists' = CountGlobally_table lists ∧
               counts_CountGlobally lists' = counts_CountGlobally lists).
Proof.
  intros Hmap. split; [|split; [|split; [|split]]].
  - intros e c. rewrite elem_of_counts_CountGlobally, CountGlobally_table_lookup.
    destruct (decide (e ∈ concat lists)) as [Hin|Hnin].
    + split; [intros [= <-]; done|]. by intros [_ ->].
    + split; [done|]. by intros [? _].
  - apply (NoDup_fst_map_to_list (CountGlobally_table lists)).
  - apply CountGlobally_table_lookup.
  - apply table_total, CountGlobally_table_lookup.
  - intros pcoll' Hre.
    apply Map_flatten_inv in Hmap as [[Hall [= ->]]|[_ [=]]].
    destruct (batches_rearranged_flattened _ _ Hre Hall) as [Hall' Hp].
    exists (flattened pcoll'). split; [by apply Map_flatten_Ok|]. split.
    + symmetry. by apply CountGlobally_table_perm.
    + symmetry. by apply counts_CountGlobally_perm.
Qed.

Lemma count_table_exact_witness :
  beam.Map _flatten_value_to_list
    [[Axis [Scalar "a"; Scalar "b"]]; [Axis [Scalar "a"]]] = Ok [["a"; "b"]; ["a"]] ∧
  ("a", 2) ∈ counts_CountGlobally [["a"; "b"]; ["a"]] ∧
  ¬ ("a", 1) ∈ counts_CountGlobally [["a"; "b"]; ["a"]] ∧
  CountGlobally_table [["a"; "b"]; ["a"]] !! "a" = Some 2 ∧
  py_sum (map snd (counts_CountGlobally [["a"; "b"]; ["a"]])) = 3.
Proof.
  split; [reflexivity|].
  destruct (count_table_exact
              [[Axis [Scalar "a"; Scalar "b"]]; [Axis [Scalar "a"]]]
              [["a"; "b"]; ["a"]] eq_refl) as (Hin & _ & Hlookup & Htotal & _).
  split; [apply Hin; split; [apply list_elem_of_here|reflexivity]|].
  split; [intros [_ H]%Hin; discriminate H|].
  split; [rewrite Hlookup; reflexivity|rewrite Htotal; reflexivity].
Defined.

(** ** Flattening a batch *)

Lemma has_shape_cons (n : nat) (sh : list nat) (a : ndarray) :
  has_shape (n :: sh) a = true →
  ∃ items, a = Axis items ∧ length items = n ∧
           Forall (λ sub, has_shape sh sub = true) items.
Proof.
  destruct a as [x|items]; [done|]. simpl.
  intros [Hlen Hall]%andb_prop. exists items. split; [done|].
  split; [by apply bool_decide_eq_true in Hlen|].
  apply Forall_forall. intros sub Hsub. rewrite forallb_forall in Hall.
  apply Hall. by apply list_elem_of_In.
Qed.

Lemma ravel_length (sh : list nat) (a : ndarray) :
  has_shape sh a = true → length (ravel a) = shape_size sh.
Proof.
  revert a. induction sh as [|n sh IH]; intros a Ha.
  - by destruct a.
  - apply has_shape_cons in Ha as (items & -> & <- & Hall).
    simpl. clear -IH Hall. induction Hall as [|sub items Hsub _ IHitems]; [done|].
    simpl. rewrite length_app, (IH _ Hsub), IHitems. done.
Qed.





(** ** The mandatory filter *)

Lemma prefix_empty (s : string) : String.prefix "" s = true.
Proof. by destruct s. Qed.

Lemma str_in_char (c : ascii) (s : string) :
  str_in (String c "") s = true ↔ contains_char c s.
Proof.
  unfold contains_char. induction s as [|a s IH]; simpl.
  - split; [done|tauto].
  - destruct (ascii_dec c a) as [->|Hne].
    + rewrite prefix_empty. simpl. split; [by left|done].
    + simpl. rewrite IH. split; [by right|]. intros [?|?]; [congruence|done].
Qed.

Lemma FilterProblematicStrings_false (e : Element) (c : Z) :
  FilterProblematicStrings (e, c) = false ↔ problematic e.
Proof.
  unfold FilterProblematicStrings, problematic, LF, CR. simpl.
  rewrite <-!str_in_char.
  destruct (str_in (String (ascii_of_nat 10) "") e),
           (str_in (String (ascii_of_nat 13) "") e), e; simpl;
    split; try done; try tauto; try (intros [?|[?|?]]; done).
Qed.

Lemma FilterProblematicStrings_true (e : Element) (c : Z) :
  FilterProblematicStrings (e, c) = true ↔ ¬ problematic e.
Proof.
  rewrite <-(FilterProblematicStrings_false e c).
  destruct (FilterProblematicStrings (e, c)); split; done.
Qed.

Lemma elem_of_sorted_counts (counts_iter : list (Z * Element)) (x : Z * Element) :
  x ∈ sorted_counts counts_iter ↔
  (counts_iter = [] ∧ x = sentinel) ∨ x ∈ counts_iter.
Proof.
  rewrite sorted_counts_perm. destruct counts_iter as [|y l]; simpl.
  - rewrite list_elem_of_singleton. split; [by left|]. intros [[_ ?]|?%elem_of_nil]; done.
  - split; [by right|]. by intros [[? _]|?].
Qed.

Lemma final_counts_not_problematic (spec : analyzers._UniquesSpec)
    (lists : list (list Element)) (x : Z * Element) :
  x ∈ final_counts spec lists → ¬ problematic x.2.
Proof.
  intros Hin%elem_of_final_counts.
  apply elem_of_counts_FilterByFrequencyThreshold in Hin as [Hin _].
  destruct x as [c e]. apply elem_of_counts_SwapElementsAndCounts in Hin as [_ Hf].
  by apply FilterProblematicStrings_true in Hf.
Qed.

(** C5. The mandatory filter rejects a counted element exactly when it is
    empty or holds a line feed or a carriage return; an element of the count
    table passes to the next stage exactly when it is none of these; and no
    entry written to the vocabulary, the placeholder included, has such an
    element. *)
Theorem problematic_strings_discarded :
  (∀ e c, FilterProblematicStrings (e, c) = false ↔ problematic e) ∧
  (∀ lists e c, CountGlobally_table lists !! e = Some c →
     ((c, e) ∈ counts_SwapElementsAndCounts lists ↔ ¬ problematic e)) ∧
  (∀ spec lists x, x ∈ sorted_counts (final_counts spec lists) →
     ¬ problematic x.2).
Proof.
  split; [apply FilterProblematicStrings_false|]. split.
  - intros lists e c Hc. rewrite elem_of_counts_SwapElementsAndCounts.
    rewrite FilterProblematicStrings_true. tauto.
  - intros spec lists x [[_ ->]|Hin]%elem_of_sorted_counts.
    + apply (FilterProblematicStrings_true _ 1). reflexivity.
    + by eapply final_counts_not_problematic.
Qed.

Lemma problematic_strings_discarded_witness :
  CountGlobally_table [["a"; bad_line; ""]] !! bad_line = Some 1 ∧
  ((1, bad_line) ∈ counts_SwapElementsAndCounts [["a"; bad_line; ""]] ↔
   ¬ problematic bad_line) ∧
  (1, "a") ∈ sorted_counts (final_counts (spec_of None None false) [["a"; bad_line; ""]]) ∧
  ¬ problematic "a".
Proof.
  destruct problematic_strings_discarded as (_ & Hstage & Hout).
  assert ((1, "a") ∈ sorted_counts
            (final_counts (spec_of None None false) [["a"; bad_line; ""]])) as Hin.
  { vm_compute. apply list_elem_of_here. }
  split; [reflexivity|].
  split; [apply (Hstage [["a"; bad_line; ""]] bad_line 1); reflexivity|].
  split; [exact Hin|].
  exact (Hout (spec_of None None false) [["a"; bad_line; ""]] (1, "a") Hin).
Defined.

(** ** The vocabulary builder as a whole *)

Lemma order_by_decreasing_counts_lines (counts_iter : list (Z * Element)) (sf : bool) :
  order_by_decreasing_counts counts_iter sf =
  map (line_of sf) (sorted_counts counts_iter).
Proof. unfold order_by_decreasing_counts, line_of. by destruct sf. Qed.

Lemma _UniquesAnalyzerImpl_expand_Ok (spec : analyzers._UniquesSpec)
    (temp_assets_dir : string) (pcoll : PCollection Batch) :
  valid_input spec pcoll →
  ∃ out, _UniquesAnalyzerImpl_expand spec temp_assets_dir pcoll = Ok out ∧
    files_written out =
      [(os_path_join temp_assets_dir (analyzers.vocab_filename spec),
        map (line_of (analyzers.store_frequency spec))
          (sorted_counts (final_counts spec (flattened pcoll))))].
Proof.
  intros (Hk & Ht & Hall). unfold _UniquesAnalyzerImpl_expand.
  rewrite Hk, Ht, (Map_flatten_Ok _ Hall). simpl.
  eexists. split; [done|]. simpl. by rewrite order_by_decreasing_counts_lines.
Qed.

Lemma _UniquesAnalyzerImpl_expand_Raise (spec : analyzers._UniquesSpec)
    (temp_assets_dir : string) (pcoll : PCollection Batch) (e : exn) :
  _UniquesAnalyzerImpl_expand spec temp_assets_dir pcoll = Raise e →
  e = AssertionError ∨ e = ValueError.
Proof.
  unfold _UniquesAnalyzerImpl_expand.
  destruct (opt_nonneg (analyzers.top_k spec)); simpl; [|intros [= <-]; by left].
  destruct (opt_nonneg (analyzers.frequency_threshold spec)); simpl;
    [|intros [= <-]; by left].
  destruct (Map_flatten_inv pcoll _ eq_refl) as [[_ ->]|[_ ->]]; simpl; [done|].
  intros [= <-]. by right.
Qed.

Lemma NoDup_sorted_counts (spec : analyzers._UniquesSpec) (lists : list (list Element)) :
  NoDup (sorted_counts (final_counts spec lists)).
Proof.
  rewrite sorted_counts_perm. case_bool_decide.
  - apply NoDup_singleton.
  - apply NoDup_final_counts.
Qed.



Lemma valid_input_abacab (top_k frequency_threshold : option Z) (sf : bool) :
  opt_nonneg top_k = true → opt_nonneg frequency_threshold = true →
  valid_input (spec_of top_k frequency_threshold sf) abacab.
Proof.
  intros Hk Ht. split; [done|]. split; [done|]. repeat constructor.
Qed.


(** C6. When no entry is left after the element filter, the frequency
    threshold and the top-k selection, exactly one entry is written, the
    placeholder with count 1; the vocabulary written always has at least one
    line. *)
Theorem empty_vocabulary_gets_sentinel (spec : analyzers._UniquesSpec)
    (temp_assets_dir : string) (pcoll : PCollection Batch) :
  valid_input spec pcoll →
  ∃ out path lines,
    _UniquesAnalyzerImpl_expand spec temp_assets_dir pcoll = Ok out ∧
    files_written out = [(path, lines)] ∧
    lines ≠ [] ∧
    (final_counts spec (flattened pcoll) = [] →
     sorted_counts (final_counts spec (flattened pcoll)) = [sentinel] ∧
     sentinel.1 = 1 ∧
     lines = [line_of (analyzers.store_frequency spec) sentinel]).
Proof.
  intros Hvalid.
  destruct (_UniquesAnalyzerImpl_expand_Ok spec temp_assets_dir pcoll Hvalid)
    as (out & Hout & Hfiles).
  eexists out, _, _. split; [done|]. split; [done|]. split.
  - intros Hnil%(f_equal length).
    rewrite length_map, sorted_counts_length in Hnil. simpl in Hnil. lia.
  - intros ->. done.
Qed.

Lemma empty_vocabulary_gets_sentinel_witness :
  valid_input (spec_of None (Some 5) false) abacab ∧
  final_counts (spec_of None (Some 5) false) (flattened abacab) = [] ∧
  ∃ out path,
    _UniquesAnalyzerImpl_expand (spec_of None (Some 5) false) "tmp" abacab = Ok out ∧
    files_written out = [(path, ["49d0cd50-04bb-48c0-bc6f-5b575dce351a"])].
Proof.
  pose proof (valid_input_abacab None (Some 5) false eq_refl eq_refl) as Hvalid.
  split; [exact Hvalid|]. split; [reflexivity|].
  destruct (empty_vocabulary_gets_sentinel (spec_of None (Some 5) false) "tmp"
              abacab Hvalid) as (out & path & lines & Hout & Hfiles & _ & Hempty).
  destruct (Hempty eq_refl) as (_ & _ & Hlines).
  exists out, path. split; [exact Hout|]. rewrite Hfiles, Hlines. reflexivity.
Defined.

(** C9. The placeholder is the entry with count 1 and element
    [49d0cd50-04bb-48c0-bc6f-5b575dce351a]: when it is written, the
    vocabulary is the single line holding that string if [store_frequency] is
    unset, and the single line [1 49d0cd50-04bb-48c0-bc6f-5b575dce351a] if it
    is set. *)
Theorem sentinel_line_exact (spec : analyzers._UniquesSpec)
    (temp_assets_dir : string) (pcoll : PCollection Batch) :
  valid_input spec pcoll →
  final_counts spec (flattened pcoll) = [] →
  sentinel = (1, "49d0cd50-04bb-48c0-bc6f-5b575dce351a") ∧
  ∃ out, _UniquesAnalyzerImpl_expand spec temp_assets_dir pcoll = Ok out ∧
    files_written out =
      [(os_path_join temp_assets_dir (analyzers.vocab_filename spec),
        if analyzers.store_frequency spec
        then ["1 49d0cd50-04bb-48c0-bc6f-5b575dce351a"]
        else ["49d0cd50-04bb-48c0-bc6f-5b575dce351a"])].
Proof.
  intros Hvalid Hnil. split; [done|].
  destruct (_UniquesAnalyzerImpl_expand_Ok spec temp_assets_dir pcoll Hvalid)
    as (out & Hout & Hfiles).
  exists out. split; [done|]. rewrite Hfiles, Hnil.
  by destruct (analyzers.store_frequency spec).
Qed.

Lemma sentinel_line_exact_witness :
  valid_input (spec_of None None true) [] ∧
  final_counts (spec_of None None true) (flattened []) = [] ∧
  ∃ out, _UniquesAnalyzerImpl_expand (spec_of None None true) "tmp" [] = Ok out ∧
         files_written out =
           [("tmp/vocab", ["1 49d0cd50-04bb-48c0-bc6f-5b575dce351a"])].
Proof.
  assert (valid_input (spec_of None None true) []) as Hvalid.
  { split; [reflexivity|]. split; [reflexivity|constructor]. }
  split; [exact Hvalid|]. split; [reflexivity|].
  destruct (sentinel_line_exact (spec_of None None true) "tmp" [] Hvalid eq_refl)
    as (_ & out & Hout & Hfiles).
  exists out. split; [exact Hout|exact Hfiles].
Defined.

(** ** Top-k selection and the frequency threshold *)

Lemma top_k_selected_facts (spec : analyzers._UniquesSpec)
    (lists : PCollection (list Element)) (k : Z) :
  analyzers.top_k spec = Some k →
  length (final_counts spec lists) =
    (Z.to_nat k `min` length (counts_FilterByFrequencyThreshold spec lists))%nat ∧
  (∀ x y, x ∈ counts_FilterByFrequencyThreshold spec lists →
          x ∉ final_counts spec lists → y ∈ final_counts spec lists →
          entry_gt y x).
Proof.
  intros Hk. rewrite final_counts_unfold, Hk.
  destruct (take_sort_reverse_greatest (Z.to_nat k)
              (counts_FilterByFrequencyThreshold spec lists)
              (NoDup_counts_FilterByFrequencyThreshold spec lists))
    as (Hlen & _ & _ & Hgreat).
  done.
Qed.




(** With [frequency_threshold = 4] no entry passes, and the placeholder is
    written with count 1, below the threshold. *)
Lemma frequency_threshold_sentinel_below :
  valid_input (spec_of None (Some 4) true) abacab ∧
  sorted_counts (final_counts (spec_of None (Some 4) true) (flattened abacab))
    = [(1, "49d0cd50-04bb-48c0-bc6f-5b575dce351a")] ∧
  (∃ out, _UniquesAnalyzerImpl_expand (spec_of None (Some 4) true) "tmp" abacab
            = Ok out ∧
          files_written out =
            [("tmp/vocab", ["1 49d0cd50-04bb-48c0-bc6f-5b575dce351a"])]) ∧
  ¬ (∀ x, x ∈ sorted_counts
                (final_counts (spec_of None (Some 4) true) (flattened abacab)) →
          4 ≤ x.1).
Proof.
  pose proof (valid_input_abacab None (Some 4) true eq_refl eq_refl) as Hvalid.
  split; [exact Hvalid|]. split; [reflexivity|]. split.
  - destruct (_UniquesAnalyzerImpl_expand_Ok _ "tmp" _ Hvalid) as (out & Hout & Hfiles).
    exists out. split; [exact Hout|]. rewrite Hfiles. reflexivity.
  - intros Hall. specialize (Hall sentinel (list_elem_of_here _ _)). simpl in Hall. lia.
Qed.

(** C4, amended. With [frequency_threshold = t], every entry written has a
    count of at least [t], unless it is the placeholder written because no
    entry is left; and every entry that passed the element filter with a count
    of at least [t] is written, unless [top_k = k] is set and [k] entries that
    all come before it in the order are selected. *)
Theorem frequency_threshold_respected (spec : analyzers._UniquesSpec)
    (lists : PCollection (list Element)) (t : Z) :
  analyzers.frequency_threshold spec = Some t →
  let selected := final_counts spec lists in
  let emitted := sorted_counts selected in
  (∀ x, x ∈ emitted → t ≤ x.1 ∨ (selected = [] ∧ x = sentinel)) ∧
  (∀ x, x ∈ counts_SwapElementsAndCounts lists → t ≤ x.1 →
        x ∈ emitted ∨
        ∃ k, analyzers.top_k spec = Some k ∧
             length selected = Z.to_nat k ∧
             ∀ y, y ∈ selected → entry_gt y x).
Proof.
  intros Ht selected emitted. split.
  - intros x [[Hnil ->]|Hin]%elem_of_sorted_counts; [by right|]. left.
    apply elem_of_final_counts, elem_of_counts_FilterByFrequencyThreshold in Hin.
    destruct Hin as [_ Hin]. by apply Hin.
  - intros x Hx Hle.
    assert (x ∈ counts_FilterByFrequencyThreshold spec lists) as Hpassed.
    { apply elem_of_counts_FilterByFrequencyThreshold. split; [done|].
      intros t' Ht'. congruence. }
    destruct (decide (x ∈ selected)) as [Hin|Hnin].
    { left. apply elem_of_sorted_counts. by right. }
    right. destruct (analyzers.top_k spec) as [k|] eqn:Hk.
    + exists k. split; [done|].
      destruct (top_k_selected_facts spec lists k Hk) as (Hlen & Hgreat).
      split; [|intros y Hy; by apply Hgreat].
      fold selected in Hlen. rewrite Hlen.
      destruct (decide (Z.to_nat k ≤ length
                  (counts_FilterByFrequencyThreshold spec lists))%nat); [lia|].
      destruct Hnin. unfold selected. rewrite final_counts_unfold, Hk.
      rewrite take_ge by (rewrite sort_reverse_perm; lia).
      by rewrite sort_reverse_perm.
    + destruct Hnin. unfold selected. by rewrite final_counts_unfold, Hk.
Qed.

Lemma frequency_threshold_respected_witness :
  analyzers.frequency_threshold (spec_of None (Some 2) true) = Some 2 ∧
  sorted_counts (final_counts (spec_of None (Some 2) true) (flattened abacab))
    = [(3, "a"); (2, "b")] ∧
  (2 ≤ (3, "a").1 ∨
   (final_counts (spec_of None (Some 2) true) (flattened abacab) = [] ∧
    (3, "a") = sentinel)).
Proof.
  split; [reflexivity|]. split; [reflexivity|].
  apply (proj1 (frequency_threshold_respected (spec_of None (Some 2) true)
                  (flattened abacab) 2 eq_refl) (3, "a")).
  vm_compute. apply list_elem_of_here.
Defined.

(** ** The combine engine on an empty input *)

Lemma no_batches_no_bundles (bundles : list (PCollection Batch)) :
  concat bundles = [] →
  List.filter (λ b, negb (bool_decide (b = @nil Batch))) bundles = [].
Proof.
  induction bundles as [|b bundles IH]; [done|]. simpl.
  intros [-> Hrest]%app_eq_nil. simpl. by apply IH.
Qed.

(** A combiner that is not a [_QuantilesCombinerSpec], given no batch, yields
    an empty collection and raises nothing. *)
Lemma combiner_without_defaults_yields_nothing :
  analyzers.is_QuantilesCombinerSpec size_spec = false ∧
  _CombinerAnalyzerImpl_expand size_spec [] =
    Ok {| returned := []; files_written := []; metrics := [] |} ∧
  ¬ ∃ e, _CombinerAnalyzerImpl_expand size_spec [] = Raise e.
Proof.
  split; [reflexivity|]. split; [reflexivity|]. intros [e He]. discriminate He.
Qed.

(** C7, amended. Given no batch, the combine engine yields the output
    extracted from the empty accumulator exactly when the specification is a
    [_QuantilesCombinerSpec]; for any other specification it yields an empty
    collection, and it raises no exception in either case. *)
Theorem combine_empty_input {Acc : Type} (spec : analyzers.CombinerSpec Acc)
    (bundles : list (PCollection Batch)) :
  concat bundles = [] →
  _CombinerAnalyzerImpl_expand spec bundles =
    Ok {| returned :=
            if analyzers.is_QuantilesCombinerSpec spec
            then [analyzers.extract_output spec (analyzers.create_accumulator spec)]
            else [];
          files_written := [];
          metrics := [] |}.
Proof.
  intros Hnil. unfold _CombinerAnalyzerImpl_expand, beam.CombineGlobally.
  rewrite (no_batches_no_bundles _ Hnil).
  by destruct (analyzers.is_QuantilesCombinerSpec spec).
Qed.

Lemma combine_empty_input_witness :
  concat [[]; []] = @nil Batch ∧
  _CombinerAnalyzerImpl_expand size_spec_with_default [[]; []] =
    Ok {| returned := [[Scalar "0"]]; files_written := []; metrics := [] |} ∧
  _CombinerAnalyzerImpl_expand size_spec [[]; []] =
    Ok {| returned := []; files_written := []; metrics := [] |}.
Proof.
  split; [reflexivity|]. split.
  - exact (combine_empty_input size_spec_with_default [[]; []] eq_refl).
  - exact (combine_empty_input size_spec [[]; []] eq_refl).
Defined.

(** ** The dispatcher *)

(** C8. A [_UniquesSpec] goes to the vocabulary builder and a [CombinerSpec]
    to the combine engine, and the outcome is the outcome of that component,
    nothing more; the dispatcher raises [NotImplementedError] exactly when
    the specification is of neither kind. *)
Theorem dispatch_exhaustive (spec : AnalyzerSpec) (temp_assets_dir : string)
    (bundles : list (PCollection Batch)) :
  match spec with
  | UniquesSpec_obj s =>
      _AnalyzerImpl_expand spec temp_assets_dir bundles =
      _UniquesAnalyzerImpl_expand s temp_assets_dir (concat bundles)
  | CombinerSpec_obj s =>
      _AnalyzerImpl_expand spec temp_assets_dir bundles =
      _CombinerAnalyzerImpl_expand s bundles
  | Other_obj cls =>
      _AnalyzerImpl_expand spec temp_assets_dir bundles =
      Raise (NotImplementedError cls)
  end ∧
  ((∃ cls, _AnalyzerImpl_expand spec temp_assets_dir bundles =
           Raise (NotImplementedError cls)) ↔
   (∃ cls, spec = Other_obj cls)).
Proof.
  split; [by destruct spec|]. split.
  - intros [cls Hraise]. destruct spec as [s|Acc s|cls']; simpl in Hraise.
    + apply _UniquesAnalyzerImpl_expand_Raise in Hraise as [?|?]; done.
    + done.
    + by exists cls'.
  - intros [cls ->]. by exists cls.
Qed.

(** * Further properties of the analyzers *)

(** ** Failures and outcome of the vocabulary builder *)

Lemma opt_nonneg_false (o : option Z) : opt_nonneg o = false ↔ negative o.
Proof.
  unfold negative. destruct o as [n|]; simpl.
  - rewrite Z.leb_gt. split; [by exists n|]. by intros (? & [= <-] & ?).
  - split; [done|]. by intros (? & [=] & _).
Qed.

Lemma opt_nonneg_true (o : option Z) : opt_nonneg o = true ↔ ¬ negative o.
Proof.
  rewrite <-opt_nonneg_false. destruct (opt_nonneg o); split; done.
Qed.

Lemma _UniquesAnalyzerImpl_expand_cases (spec : analyzers._UniquesSpec)
    (temp_assets_dir : string) (pcoll : PCollection Batch) :
  ((negative (analyzers.top_k spec) ∨ negative (analyzers.frequency_threshold spec)) ∧
   _UniquesAnalyzerImpl_expand spec temp_assets_dir pcoll = Raise AssertionError) ∨
  (¬ negative (analyzers.top_k spec) ∧
   ¬ negative (analyzers.frequency_threshold spec) ∧
   ¬ Forall (λ b, length b = 1%nat) pcoll ∧
   _UniquesAnalyzerImpl_expand spec temp_assets_dir pcoll = Raise ValueError) ∨
  (valid_input spec pcoll ∧
   ∃ out, _UniquesAnalyzerImpl_expand spec temp_assets_dir pcoll = Ok out).
Proof.
  unfold _UniquesAnalyzerImpl_expand, valid_input.
  destruct (opt_nonneg (analyzers.top_k spec)) eqn:Hk; simpl.
  2:{ left. split; [|done]. left. by apply opt_nonneg_false. }
  destruct (opt_nonneg (analyzers.frequency_threshold spec)) eqn:Ht; simpl.
  2:{ left. split; [|done]. right. by apply opt_nonneg_false. }
  apply opt_nonneg_true in Hk, Ht. right.
  destruct (Map_flatten_inv pcoll _ eq_refl) as [[Hall ->]|[Hall ->]]; simpl.
  - right. split; [done|]. by eexists.
  - by left.
Qed.

(** X1. [expand] of the vocabulary builder raises [AssertionError] exactly
    when [top_k] or [frequency_threshold] is set and negative, whatever the
    batches are; it raises [ValueError] exactly when both assertions pass and
    some batch does not hold exactly one array; and it produces an outcome
    only when neither bound is negative and every batch holds exactly one
    array. *)
Theorem uniques_expand_failures (spec : analyzers._UniquesSpec)
    (temp_assets_dir : string) (pcoll : PCollection Batch) :
  (_UniquesAnalyzerImpl_expand spec temp_assets_dir pcoll = Raise AssertionError ↔
   negative (analyzers.top_k spec) ∨ negative (analyzers.frequency_threshold spec)) ∧
  (_UniquesAnalyzerImpl_expand spec temp_assets_dir pcoll = Raise ValueError ↔
   ¬ negative (analyzers.top_k spec) ∧
   ¬ negative (analyzers.frequency_threshold spec) ∧
   ¬ Forall (λ b, length b = 1%nat) pcoll) ∧
  ((∃ out, _UniquesAnalyzerImpl_expand spec temp_assets_dir pcoll = Ok out) →
   ¬ negative (analyzers.top_k spec) ∧
   ¬ negative (analyzers.frequency_threshold spec) ∧
   Forall (λ b, length b = 1%nat) pcoll).
Proof.
  destruct (_UniquesAnalyzerImpl_expand_cases spec temp_assets_dir pcoll)
    as [[Hneg ->]|[(Hk & Ht & Hall & ->)|[(Hk & Ht & Hall) [out ->]]]].
  - split; [done|]. split; [split; [done|]; intros (? & ? & _); tauto|].
    by intros [? ?].
  - split; [split; [done|tauto]|]. split; [done|]. by intros [? ?].
  - apply opt_nonneg_true in Hk, Ht.
    split; [split; [done|tauto]|]. split; [split; [done|]; intros (_ & _ & ?); done|].
    done.
Qed.

Lemma uniques_expand_failures_witness :
  _UniquesAnalyzerImpl_expand (spec_of (Some (-1)) None true) "tmp" [[]] =
    Raise AssertionError ∧
  _UniquesAnalyzerImpl_expand (spec_of (Some 1) None true) "tmp" [[]] =
    Raise ValueError ∧
  (∃ out, _UniquesAnalyzerImpl_expand (spec_of (Some 1) None true) "tmp" abacab = Ok out) ∧
  Forall (λ b, length b = 1%nat) abacab.
Proof.
  split; [reflexivity|]. split; [reflexivity|].
  assert (∃ out, _UniquesAnalyzerImpl_expand (spec_of (Some 1) None true) "tmp" abacab
                 = Ok out) as Hok by (eexists; reflexivity).
  split; [exact Hok|].
  exact (proj2 (proj2 (proj2 (proj2
    (uniques_expand_failures (spec_of (Some 1) None true) "tmp" abacab)) Hok))).
Defined.

(** X2. When [expand] succeeds it returns one value, the path of the
    vocabulary file, and that path is the one file written; the size reported
    to the metrics is the number of lines written, which is the number of
    entries left after the filters and the selection, or 1 when none is
    left. *)
Theorem uniques_outcome_shape (spec : analyzers._UniquesSpec)
    (temp_assets_dir : string) (pcoll : PCollection Batch) (out : Outcome) :
  _UniquesAnalyzerImpl_expand spec temp_assets_dir pcoll = Ok out →
  ∃ lines,
    returned out =
      [[Scalar (os_path_join temp_assets_dir (analyzers.vocab_filename spec))]] ∧
    files_written out =
      [(os_path_join temp_assets_dir (analyzers.vocab_filename spec), lines)] ∧
    metrics out = [("vocabulary_size", Z.of_nat (length lines))] ∧
    length lines = (1 `max` length (final_counts spec (flattened pcoll)))%nat.
Proof.
  intros Hout.
  destruct (_UniquesAnalyzerImpl_expand_cases spec temp_assets_dir pcoll)
    as [[_ Hr]|[(_ & _ & _ & Hr)|[(Hk & Ht & Hall) _]]]; [congruence..|].
  unfold _UniquesAnalyzerImpl_expand in Hout.
  rewrite Hk, Ht, (Map_flatten_Ok _ Hall) in Hout. simpl in Hout.
  injection Hout as <-. eexists. simpl. split; [done|]. split; [done|].
  rewrite order_by_decreasing_counts_length, sorted_counts_length. done.
Qed.

Lemma uniques_outcome_shape_witness :
  _UniquesAnalyzerImpl_expand (spec_of (Some 3) None true) "tmp/" abacab =
    Ok {| returned := [[Scalar "tmp/vocab"]];
          files_written := [("tmp/vocab", ["3 a"; "2 b"; "1 d"])];
          metrics := [("vocabulary_size", 3)] |} ∧
  ∃ lines,
    files_written {| returned := [[Scalar "tmp/vocab"]];
                     files_written := [("tmp/vocab", ["3 a"; "2 b"; "1 d"])];
                     metrics := [("vocabulary_size", 3)] |} =
      [("tmp/vocab", lines)] ∧
    length lines = 3%nat.
Proof.
  assert (_UniquesAnalyzerImpl_expand (spec_of (Some 3) None true) "tmp/" abacab =
    Ok {| returned := [[Scalar "tmp/vocab"]];
          files_written := [("tmp/vocab", ["3 a"; "2 b"; "1 d"])];
          metrics := [("vocabulary_size", 3)] |}) as Hout by (vm_compute; reflexivity).
  split; [exact Hout|].
  destruct (uniques_outcome_shape _ _ _ _ Hout) as (lines & _ & Hfiles & _ & Hlen).
  exists lines. split; [exact Hfiles|]. rewrite Hlen. vm_compute. reflexivity.
Defined.

(** ** Independence of arrival order *)

Lemma batches_rearranged_one_array (pcoll pcoll' : PCollection Batch) :
  batches_rearranged pcoll pcoll' →
  Forall (λ b, length b = 1%nat) pcoll' → Forall (λ b, length b = 1%nat) pcoll.
Proof.
  intros (mid & Hp & Hf) Hall. rewrite Hp. clear Hp pcoll.
  induction Hf as [|b b' mid pcoll' [Hlen _] _ IH]; [done|].
  apply Forall_cons in Hall as [Hb Hall]. constructor; [congruence|by apply IH].
Qed.

(** X3. The outcome of the vocabulary builder, exceptions included, is the
    same when the batches arrive in another order with the scalars of each
    batch in another order. *)
Theorem uniques_expand_order_independent (spec : analyzers._UniquesSpec)
    (temp_assets_dir : string) (pcoll pcoll' : PCollection Batch) :
  batches_rearranged pcoll pcoll' →
  _UniquesAnalyzerImpl_expand spec temp_assets_dir pcoll' =
  _UniquesAnalyzerImpl_expand spec temp_assets_dir pcoll.
Proof.
  intros Hre. unfold _UniquesAnalyzerImpl_expand.
  destruct (py_assert (opt_nonneg (analyzers.top_k spec))); [|done]. simpl.
  destruct (py_assert (opt_nonneg (analyzers.frequency_threshold spec))); [|done].
  simpl.
  destruct (Map_flatten_inv pcoll _ eq_refl) as [[Hall ->]|[Hall ->]].
  - destruct (batches_rearranged_flattened _ _ Hre Hall) as [Hall' Hp].
    rewrite (Map_flatten_Ok _ Hall'). simpl.
    assert (final_counts spec (flattened pcoll') = final_counts spec (flattened pcoll))
      as ->; [|done].
    unfold final_counts, counts_FilterByFrequencyThreshold,
      counts_SwapElementsAndCounts, counts_CountGlobally, beam.CombinePerKey_sum.
    fold (CountGlobally_table (flattened pcoll')).
    fold (CountGlobally_table (flattened pcoll)).
    by rewrite (CountGlobally_table_perm _ _ Hp).
  - destruct (Map_flatten_inv pcoll' _ eq_refl) as [[Hall' _]|[_ ->]]; [|done].
    destruct Hall. by eapply batches_rearranged_one_array.
Qed.

Lemma uniques_expand_order_independent_witness :
  batches_rearranged abacab
    [[Axis [Axis [Scalar "d"; Scalar "a"]; Axis [Scalar "b"; Scalar "c"]]];
     [Axis [Scalar "a"; Scalar "a"; Scalar "b"]]] ∧
  _UniquesAnalyzerImpl_expand (spec_of None None true) "tmp"
    [[Axis [Axis [Scalar "d"; Scalar "a"]; Axis [Scalar "b"; Scalar "c"]]];
     [Axis [Scalar "a"; Scalar "a"; Scalar "b"]]] =
  _UniquesAnalyzerImpl_expand (spec_of None None true) "tmp" abacab.
Proof.
  assert (batches_rearranged abacab
    [[Axis [Axis [Scalar "d"; Scalar "a"]; Axis [Scalar "b"; Scalar "c"]]];
     [Axis [Scalar "a"; Scalar "a"; Scalar "b"]]]) as Hre.
  { exists [[Axis [Axis [Scalar "c"; Scalar "b"]; Axis [Scalar "a"; Scalar "d"]]];
            [Axis [Scalar "a"; Scalar "b"; Scalar "a"]]].
    split; [apply perm_swap|].
    constructor; [|constructor; [|constructor]]; (split; [reflexivity|]); simpl.
    - change ["c"; "b"; "a"; "d"] with (["c"; "b"; "a"] ++ ["d"]).
      rewrite (Permutation_app_comm ["c"; "b"; "a"] ["d"]). simpl.
      apply perm_skip. apply (Permutation_rev ["c"; "b"; "a"]).
    - apply perm_skip, perm_swap. }
  split; [exact Hre|].
  exact (uniques_expand_order_independent (spec_of None None true) "tmp" _ _ Hre).
Defined.

(** X4. [order_by_decreasing_counts] returns the same lines in whatever order
    [counts_iter] yields its entries. *)
Theorem order_by_decreasing_counts_order_independent
    (counts_iter counts_iter' : list (Z * Element)) (store_frequency : bool) :
  counts_iter ≡ₚ counts_iter' →
  order_by_decreasing_counts counts_iter store_frequency =
  order_by_decreasing_counts counts_iter' store_frequency.
Proof.
  intros Hp. unfold order_by_decreasing_counts.
  by rewrite (sorted_counts_perm_eq _ _ Hp).
Qed.

Lemma order_by_decreasing_counts_order_independent_witness :
  [(1, "c"); (3, "a"); (1, "d")] ≡ₚ [(3, "a"); (1, "d"); (1, "c")] ∧
  order_by_decreasing_counts [(1, "c"); (3, "a"); (1, "d")] true = ["3 a"; "1 d"; "1 c"] ∧
  order_by_decreasing_counts [(3, "a"); (1, "d"); (1, "c")] true = ["3 a"; "1 d"; "1 c"].
Proof.
  assert ([(1, "c"); (3, "a"); (1, "d")] ≡ₚ [(3, "a"); (1, "d"); (1, "c")]) as Hp.
  { change [(3, "a"); (1, "d"); (1, "c")] with ([(3, "a"); (1, "d")] ++ [(1, "c")]).
    apply (Permutation_cons_append [(3, "a"); (1, "d")] (1, "c")). }
  split; [exact Hp|].
  rewrite <-(order_by_decreasing_counts_order_independent _ _ true Hp).
  split; vm_compute; reflexivity.
Defined.

(** ** The frequency filter and the top-k selection commute *)

Lemma Filter_all {A} (fn : A → bool) (pcoll : PCollection A) :
  (∀ x, x ∈ pcoll → fn x = true) → beam.Filter fn pcoll = pcoll.
Proof.
  unfold beam.Filter. induction pcoll as [|x l IH]; intros Hall; [done|].
  simpl. rewrite (Hall x) by apply list_elem_of_here.
  f_equal. apply IH. intros y Hy. apply Hall. by apply list_elem_of_further.
Qed.

Lemma Filter_none {A} (fn : A → bool) (pcoll : PCollection A) :
  (∀ x, x ∈ pcoll → fn x = false) → beam.Filter fn pcoll = [].
Proof.
  unfold beam.Filter. induction pcoll as [|x l IH]; intros Hall; [done|].
  simpl. rewrite (Hall x) by apply list_elem_of_here.
  apply IH. intros y Hy. apply Hall. by apply list_elem_of_further.
Qed.

Lemma Filter_partition_perm {A} (fn : A → bool) (pcoll : PCollection A) :
  beam.Filter fn pcoll ++ beam.Filter (λ x, negb (fn x)) pcoll ≡ₚ pcoll.
Proof.
  unfold beam.Filter. induction pcoll as [|x l IH]; [done|].
  simpl. destruct (fn x); simpl.
  - by rewrite IH.
  - rewrite <-Permutation_middle. by rewrite IH.
Qed.

Lemma sort_reverse_split (t : Z) (counts : list (Z * Element)) :
  sort_reverse counts =
  sort_reverse (beam.Filter (FilterByFrequencyThreshold t) counts) ++
  sort_reverse (beam.Filter (λ kv, negb (FilterByFrequencyThreshold t kv)) counts).
Proof.
  apply (StronglySorted_unique tuple_ge); [apply sort_reverse_sorted| |].
  - apply StronglySorted_app_2; [|apply sort_reverse_sorted..].
    intros x y. rewrite !sort_reverse_perm, !elem_of_Filter.
    unfold FilterByFrequencyThreshold.
    intros [_ Hx%Z.leb_le] [_ Hy%negb_true_iff%Z.leb_gt].
    apply tuple_ge_alt. left. lia.
  - rewrite !sort_reverse_perm. by rewrite Filter_partition_perm.
Qed.

Lemma elem_of_take_sort_reverse (n : nat) (l : list (Z * Element)) (x : Z * Element) :
  x ∈ take n (sort_reverse l) → x ∈ l.
Proof.
  intros Hx. rewrite <-(sort_reverse_perm l).
  eapply elem_of_sublist; [done|apply sublist_take].
Qed.

Lemma FlatMap_Top_Largest (k : Z) (counts : PCollection (Z * Element)) :
  beam.FlatMap (λ lst, lst) (beam.Top_Largest k counts) =
  take (Z.to_nat k) (sort_reverse counts).
Proof. unfold beam.FlatMap, beam.Top_Largest. simpl. apply app_nil_r. Qed.

Lemma Filter_app {A} (fn : A → bool) (l1 l2 : PCollection A) :
  beam.Filter fn (l1 ++ l2) = beam.Filter fn l1 ++ beam.Filter fn l2.
Proof. apply List.filter_app. Qed.

(** X5. Filtering by the frequency threshold before the top-k selection, as
    [expand] does, gives the same entries in the same order as selecting
    first and filtering afterwards: the two steps commute. *)
Theorem frequency_filter_commutes_with_top (t k : Z)
    (counts : PCollection (Z * Element)) :
  beam.FlatMap (λ lst, lst)
    (beam.Top_Largest k (beam.Filter (FilterByFrequencyThreshold t) counts)) =
  beam.Filter (FilterByFrequencyThreshold t)
    (beam.FlatMap (λ lst, lst) (beam.Top_Largest k counts)).
Proof.
  rewrite !FlatMap_Top_Largest.
  rewrite (sort_reverse_split t counts), take_app, Filter_app.
  set (kept := sort_reverse (beam.Filter (FilterByFrequencyThreshold t) counts)).
  set (dropped := sort_reverse
         (beam.Filter (λ kv, negb (FilterByFrequencyThreshold t kv)) counts)).
  rewrite (Filter_all _ (take (Z.to_nat k) kept)),
    (Filter_none _ (take (Z.to_nat k - length kept) dropped));
    [by rewrite app_nil_r| |]; unfold kept, dropped.
  - intros x [_ Hx]%elem_of_take_sort_reverse%elem_of_Filter.
    by apply negb_true_iff.
  - intros x [_ Hx]%elem_of_take_sort_reverse%elem_of_Filter. done.
Qed.

(** ** What the vocabulary holds *)

Lemma final_counts_entry (spec : analyzers._UniquesSpec)
    (lists : PCollection (list Element)) (c : Z) (e : Element) :
  (c, e) ∈ counts_FilterByFrequencyThreshold spec lists ↔
  e ∈ concat lists ∧ c = occurrences e lists ∧ ¬ problematic e ∧
  (∀ t, analyzers.frequency_threshold spec = Some t → t ≤ c).
Proof.
  rewrite elem_of_counts_FilterByFrequencyThreshold,
    elem_of_counts_SwapElementsAndCounts, FilterProblematicStrings_true,
    CountGlobally_table_lookup.
  unfold occurrences. simpl. destruct (decide (e ∈ concat lists)) as [Hin|Hnin].
  - split.
    + intros [[[= <-] ?] ?]. done.
    + intros (_ & -> & ? & ?). done.
  - split; [by intros [[? _] _]|]. by intros [? _].
Qed.

Lemma occurrences_positive (e : Element) (lists : PCollection (list Element)) :
  e ∈ concat lists → 1 ≤ occurrences e lists.
Proof.
  intros Hin%list_elem_of_In%(count_occ_In string_dec). unfold occurrences. lia.
Qed.

(** X6. Every entry that reaches the ordering step carries an element of
    the input batches with the exact number of its occurrences, which is at
    least 1; its element is neither empty nor holds a line break, and its
    count reaches the frequency threshold when one is set. *)
Theorem final_counts_exact (spec : analyzers._UniquesSpec)
    (lists : PCollection (list Element)) (c : Z) (e : Element) :
  (c, e) ∈ final_counts spec lists →
  e ∈ concat lists ∧ c = occurrences e lists ∧ 1 ≤ c ∧ ¬ problematic e ∧
  (∀ t, analyzers.frequency_threshold spec = Some t → t ≤ c).
Proof.
  intros (Hin & -> & Hok & Ht)%elem_of_final_counts%final_counts_entry.
  split; [done|]. split; [done|]. split; [by apply occurrences_positive|done].
Qed.

Lemma final_counts_exact_witness :
  (3, "a") ∈ final_counts (spec_of (Some 2) (Some 2) true) (flattened abacab) ∧
  "a" ∈ concat (flattened abacab) ∧
  3 = occurrences "a" (flattened abacab).
Proof.
  assert ((3, "a") ∈ final_counts (spec_of (Some 2) (Some 2) true) (flattened abacab))
    as Hin by (vm_compute; apply list_elem_of_here).
  split; [exact Hin|].
  destruct (final_counts_exact _ _ _ _ Hin) as (He & Hc & _).
  split; [exact He|exact Hc].
Defined.

(** X7. No element is written twice: the elements of the entries written
    (the selected entries, or the placeholder alone) are pairwise distinct. *)
Theorem vocabulary_elements_distinct (spec : analyzers._UniquesSpec)
    (lists : PCollection (list Element)) :
  NoDup (elements_of (sorted_counts (final_counts spec lists))).
Proof.
  unfold elements_of. rewrite sorted_counts_perm. case_bool_decide.
  { apply NoDup_singleton. }
  apply (NoDup_fmap_2_strong snd); [|apply NoDup_final_counts].
  intros [c1 e1] [c2 e2] H1 H2 Heq. simpl in Heq. subst e2.
  apply elem_of_final_counts, final_counts_entry in H1 as (_ & -> & _).
  apply elem_of_final_counts, final_counts_entry in H2 as (_ & -> & _).
  done.
Qed.

(** X8. Without [top_k], an entry reaches the ordering step exactly when its
    element occurs in the input batches, is neither empty nor holds a line
    break, its count is the number of occurrences of the element, and that
    count reaches the frequency threshold when one is set. *)
Theorem vocabulary_without_top_k (spec : analyzers._UniquesSpec)
    (lists : PCollection (list Element)) (c : Z) (e : Element) :
  analyzers.top_k spec = None →
  ((c, e) ∈ final_counts spec lists ↔
   e ∈ concat lists ∧ c = occurrences e lists ∧ ¬ problematic e ∧
   (∀ t, analyzers.frequency_threshold spec = Some t → t ≤ c)).
Proof.
  intros Hk. rewrite final_counts_unfold, Hk. apply final_counts_entry.
Qed.

Lemma vocabulary_without_top_k_witness :
  analyzers.top_k (spec_of None (Some 2) false) = None ∧
  ((2, "b") ∈ final_counts (spec_of None (Some 2) false) (flattened abacab) ↔
   "b" ∈ concat (flattened abacab) ∧ 2 = occurrences "b" (flattened abacab) ∧
   ¬ problematic "b" ∧
   (∀ t, analyzers.frequency_threshold (spec_of None (Some 2) false) = Some t →
         t ≤ 2)).
Proof.
  split; [reflexivity|].
  exact (vocabulary_without_top_k (spec_of None (Some 2) false) (flattened abacab)
           2 "b" eq_refl).
Defined.

(** X9. A frequency threshold of at most 1 filters nothing: the entries
    that reach the ordering step are the same as with no threshold. *)
Theorem frequency_threshold_at_most_one (spec spec' : analyzers._UniquesSpec)
    (lists : PCollection (list Element)) (t : Z) :
  analyzers.frequency_threshold spec = Some t → t ≤ 1 →
  analyzers.frequency_threshold spec' = None →
  analyzers.top_k spec' = analyzers.top_k spec →
  final_counts spec lists = final_counts spec' lists.
Proof.
  intros Ht Hle Ht' Hk.
  assert (counts_FilterByFrequencyThreshold spec lists =
          counts_FilterByFrequencyThreshold spec' lists) as Hsame.
  { unfold counts_FilterByFrequencyThreshold. rewrite Ht, Ht'.
    apply Filter_all. intros [c e] Hin.
    assert ((c, e) ∈ counts_FilterByFrequencyThreshold spec' lists) as Hin'.
    { unfold counts_FilterByFrequencyThreshold. by rewrite Ht'. }
    apply final_counts_entry in Hin' as (He%occurrences_positive & -> & _).
    unfold FilterByFrequencyThreshold. simpl. apply Z.leb_le. lia. }
  rewrite !final_counts_unfold, Hk, Hsame. done.
Qed.

Lemma frequency_threshold_at_most_one_witness :
  analyzers.frequency_threshold (spec_of (Some 3) (Some 1) true) = Some 1 ∧
  1 ≤ 1 ∧
  final_counts (spec_of (Some 3) (Some 1) true) (flattened abacab) =
  final_counts (spec_of (Some 3) None true) (flattened abacab).
Proof.
  split; [reflexivity|]. split; [lia|].
  apply (frequency_threshold_at_most_one (spec_of (Some 3) (Some 1) true)
           (spec_of (Some 3) None true) (flattened abacab) 1);
    [reflexivity|lia|reflexivity|reflexivity].
Defined.

(** X10. When [top_k] is at least the number of entries that pass the
    filters, the selection drops nothing: the lines written are the lines
    written without [top_k]. *)
Theorem top_k_large_selects_all (spec spec' : analyzers._UniquesSpec)
    (lists : PCollection (list Element)) (k : Z) (store_frequency : bool) :
  analyzers.top_k spec = Some k →
  analyzers.top_k spec' = None →
  analyzers.frequency_threshold spec' = analyzers.frequency_threshold spec →
  (length (final_counts spec' lists) ≤ Z.to_nat k)%nat →
  order_by_decreasing_counts (final_counts spec lists) store_frequency =
  order_by_decreasing_counts (final_counts spec' lists) store_frequency.
Proof.
  intros Hk Hk' Ht Hlen. rewrite !final_counts_unfold, Hk in *.
  rewrite Hk' in *.
  assert (counts_FilterByFrequencyThreshold spec' lists =
          counts_FilterByFrequencyThreshold spec lists) as Hsame.
  { unfold counts_FilterByFrequencyThreshold. by rewrite Ht. }
  rewrite Hsame in *. rewrite take_ge by (by rewrite sort_reverse_perm).
  unfold order_by_decreasing_counts.
  by rewrite (sorted_counts_perm_eq _ _ (sort_reverse_perm _)).
Qed.

Lemma top_k_large_selects_all_witness :
  analyzers.top_k (spec_of (Some 4) None true) = Some 4 ∧
  (length (final_counts (spec_of None None true) (flattened abacab)) ≤ Z.to_nat 4)%nat ∧
  order_by_decreasing_counts
    (final_counts (spec_of (Some 4%Z) None true) (flattened abacab)) true =
  order_by_decreasing_counts
    (final_counts (spec_of None None true) (flattened abacab)) true.
Proof.
  assert (length (final_counts (spec_of None None true) (flattened abacab))
          ≤ Z.to_nat 4)%nat as Hlen by (vm_compute; lia).
  split; [reflexivity|]. split; [exact Hlen|].
  exact (top_k_large_selects_all (spec_of (Some 4) None true) (spec_of None None true)
           (flattened abacab) 4 true eq_refl eq_refl eq_refl Hlen).
Defined.

(** ** The lines of the vocabulary file *)

Lemma list_ascii_of_string_app (s1 s2 : string) :
  list_ascii_of_string (s1 +:+ s2) =
  list_ascii_of_string s1 ++ list_ascii_of_string s2.
Proof. induction s1 as [|a s1 IH]; simpl; [done|]. by rewrite IH. Qed.

Lemma contains_char_app (c : ascii) (s1 s2 : string) :
  contains_char c (s1 +:+ s2) ↔ contains_char c s1 ∨ contains_char c s2.
Proof. unfold contains_char. rewrite list_ascii_of_string_app. apply in_app_iff. Qed.

Lemma string_of_uint_chars (d : Decimal.uint) (c : ascii) :
  contains_char c (NilEmpty.string_of_uint d) → contains_char c "0123456789".
Proof.
  unfold contains_char. induction d as [|d IH|d IH|d IH|d IH|d IH|d IH|d IH|d IH|d IH|d IH];
    simpl; [done|..]; (intros [<-|Hin]; [tauto|by apply IH]).
Qed.

Lemma str_of_int_chars (n : Z) (c : ascii) :
  contains_char c (str_of_int n) → contains_char c "-0123456789".
Proof.
  unfold str_of_int, NilZero.string_of_int, NilZero.string_of_uint.
  assert (∀ d, contains_char c (NilEmpty.string_of_uint d) →
               contains_char c "-0123456789") as Hd.
  { intros d Hin%string_of_uint_chars. by right. }
  assert (∀ d, contains_char c (match d with
                                | Decimal.Nil => "0"
                                | _ => NilEmpty.string_of_uint d
                                end) → contains_char c "-0123456789") as Hd'.
  { intros d. destruct d; try apply Hd. unfold contains_char. simpl. tauto. }
  destruct (Z.to_int n) as [d|d]; [apply Hd'|].
  intros [<-|Hin]; [by left|by apply (Hd' d)].
Qed.

Lemma str_of_int_no_char (n : Z) (c : ascii) :
  ¬ contains_char c "-0123456789" → ¬ contains_char c (str_of_int n).
Proof. intros Hc Hin. by apply Hc, str_of_int_chars with n. Qed.

Lemma line_of_not_problematic (store_frequency : bool) (ce : Z * Element) :
  ¬ problematic ce.2 → ¬ problematic (line_of store_frequency ce).
Proof.
  destruct store_frequency; [|done]. unfold line_of, problematic.
  intros Hok [Hnil|[Hlf|Hcr]].
  - apply (f_equal list_ascii_of_string) in Hnil.
    rewrite !list_ascii_of_string_app in Hnil. by destruct (list_ascii_of_string _).
  - apply contains_char_app in Hlf as [Hlf|Hlf%contains_char_app].
    + revert Hlf. apply str_of_int_no_char. unfold contains_char. simpl.
      intros H. repeat (destruct H as [H|H]; [discriminate H|]). done.
    + destruct Hlf as [Hlf|Hlf]; [|tauto].
      unfold contains_char in Hlf. simpl in Hlf. destruct Hlf as [H|[]]. discriminate H.
  - apply contains_char_app in Hcr as [Hcr|Hcr%contains_char_app].
    + revert Hcr. apply str_of_int_no_char. unfold contains_char. simpl.
      intros H. repeat (destruct H as [H|H]; [discriminate H|]). done.
    + destruct Hcr as [Hcr|Hcr]; [|tauto].
      unfold contains_char in Hcr. simpl in Hcr. destruct Hcr as [H|[]]. discriminate H.
Qed.

(** X11. Every line written to the vocabulary file, with or without the
    count, is non-empty and holds neither a line feed nor a carriage return:
    the file has exactly one line per entry. *)
Theorem written_lines_hold_no_line_break (spec : analyzers._UniquesSpec)
    (lists : PCollection (list Element)) (store_frequency : bool) (line : string) :
  line ∈ order_by_decreasing_counts (final_counts spec lists) store_frequency →
  line ≠ "" ∧
  ¬ contains_char (ascii_of_nat 10) line ∧
  ¬ contains_char (ascii_of_nat 13) line.
Proof.
  rewrite order_by_decreasing_counts_lines.
  intros (ce & -> & Hce)%list_elem_of_fmap.
  assert (¬ problematic (line_of store_frequency ce)) as Hok.
  { apply line_of_not_problematic.
    apply elem_of_sorted_counts in Hce as [[_ ->]|Hce].
    - apply (FilterProblematicStrings_true _ 1). reflexivity.
    - by eapply final_counts_not_problematic. }
  unfold problematic in Hok. tauto.
Qed.

Lemma written_lines_hold_no_line_break_witness :
  "2 b" ∈ order_by_decreasing_counts
            (final_counts (spec_of None None true) (flattened abacab)) true ∧
  "2 b" ≠ "" ∧
  ¬ contains_char (ascii_of_nat 10) "2 b" ∧
  ¬ contains_char (ascii_of_nat 13) "2 b".
Proof.
  assert ("2 b" ∈ order_by_decreasing_counts
            (final_counts (spec_of None None true) (flattened abacab)) true) as Hin.
  { vm_compute. apply list_elem_of_further, list_elem_of_here. }
  split; [exact Hin|].
  exact (written_lines_hold_no_line_break _ _ _ _ Hin).
Defined.

Lemma app_cons_inj_fresh {A} (x : A) (l1 l2 r1 r2 : list A) :
  ¬ In x l1 → ¬ In x l2 → l1 ++ x :: r1 = l2 ++ x :: r2 → l1 = l2 ∧ r1 = r2.
Proof.
  revert l2. induction l1 as [|a l1 IH]; intros [|b l2] H1 H2 Heq; simpl in *.
  - by injection Heq as ->.
  - injection Heq as -> _. tauto.
  - injection Heq as -> _. tauto.
  - injection Heq as -> Heq. destruct (IH l2) as [-> ->]; tauto.
Qed.

Lemma list_ascii_of_string_inj (s1 s2 : string) :
  list_ascii_of_string s1 = list_ascii_of_string s2 → s1 = s2.
Proof.
  intros Heq%(f_equal string_of_list_ascii).
  by rewrite !string_of_list_ascii_of_string in Heq.
Qed.

Lemma format_count_element_split (c1 c2 : Z) (e1 e2 : Element) :
  format_count_element c1 e1 = format_count_element c2 e2 →
  str_of_int c1 = str_of_int c2 ∧ e1 = e2.
Proof.
  unfold format_count_element. intros Heq%(f_equal list_ascii_of_string).
  rewrite !list_ascii_of_string_app in Heq. simpl in Heq.
  assert (∀ n, ¬ In (ascii_of_nat 32) (list_ascii_of_string (str_of_int n))) as Hsp.
  { intros n. apply (str_of_int_no_char n). unfold contains_char. simpl.
    intros H. repeat (destruct H as [H|H]; [discriminate H|]). done. }
  apply app_cons_inj_fresh in Heq as [H1 H2]; [|apply Hsp..].
  split; by apply list_ascii_of_string_inj.
Qed.

Lemma to_int_proper (n : Z) :
  Z.to_int n ≠ Decimal.Pos Decimal.Nil ∧ Z.to_int n ≠ Decimal.Neg Decimal.Nil.
Proof.
  destruct n as [|p|p]; simpl; split; try done; intros [= H];
    by apply DecimalPos.Unsigned.to_uint_nonnil in H.
Qed.

Lemma str_of_int_inj (n1 n2 : Z) : str_of_int n1 = str_of_int n2 → n1 = n2.
Proof.
  unfold str_of_int. intros Heq%(f_equal NilZero.int_of_string).
  destruct (to_int_proper n1) as [? ?], (to_int_proper n2) as [? ?].
  rewrite !NilZero.isi in Heq by done. injection Heq as Heq.
  by apply DecimalZ.to_int_inj.
Qed.

(** X12. The line written for an entry when [store_frequency] is set
    determines the entry: two entries with the same line have the same count
    and the same element. *)
Theorem format_count_element_injective (count1 count2 : Z) (element1 element2 : Element) :
  format_count_element count1 element1 = format_count_element count2 element2 →
  count1 = count2 ∧ element1 = element2.
Proof.
  intros [Hc He]%format_count_element_split. split; [by apply str_of_int_inj|done].
Qed.

Lemma format_count_element_injective_witness :
  format_count_element 12 "3 a" = format_count_element 12 "3 a" ∧
  format_count_element 12 "3 a" = "12 3 a" ∧
  (12 = 12 ∧ "3 a" = "3 a").
Proof.
  split; [reflexivity|]. split; [reflexivity|].
  exact (format_count_element_injective 12 12 "3 a" "3 a" eq_refl).
Defined.

(** X13. The lines written to the vocabulary file are pairwise distinct,
    with or without the count. *)
Theorem written_lines_distinct (spec : analyzers._UniquesSpec)
    (lists : PCollection (list Element)) (store_frequency : bool) :
  NoDup (order_by_decreasing_counts (final_counts spec lists) store_frequency).
Proof.
  rewrite order_by_decreasing_counts_lines.
  apply NoDup_fmap_2_strong; [|apply NoDup_sorted_counts].
  intros [c1 e1] [c2 e2] H1 H2 Hline.
  assert (e1 = e2) as <-.
  { unfold line_of in Hline. destruct store_frequency; [|done].
    by apply format_count_element_split in Hline as [_ ?]. }
  apply elem_of_sorted_counts in H1 as [[Hnil [= -> ->]]|H1].
  - apply elem_of_sorted_counts in H2 as [[_ [= ->]]|H2]; [done|].
    rewrite Hnil in H2. by apply elem_of_nil in H2.
  - apply elem_of_sorted_counts in H2 as [[Hnil _]|H2].
    { rewrite Hnil in H1. by apply elem_of_nil in H1. }
    apply elem_of_final_counts, final_counts_entry in H1 as (_ & -> & _).
    apply elem_of_final_counts, final_counts_entry in H2 as (_ & -> & _).
    done.
Qed.

(** ** Counting per batch and counting at once *)

(** X14. Counting the elements of each batch apart and adding the counts per
    element gives the table that a single [Counter] over all the batches
    gives. *)
Theorem count_per_batch_then_sum (lists : PCollection (list Element)) :
  CountGlobally_table lists = Counter (concat lists).
Proof.
  apply map_eq. intros e. by rewrite CountGlobally_table_lookup, Counter_lookup.
Qed.

(** ** The size of a flattened batch *)

(** X15. A batch holding one array of shape [sh] is flattened into as many
    scalars as the product of the dimensions of [sh]. *)
Theorem flatten_value_to_list_length (sh : list nat) (a : ndarray) :
  has_shape sh a = true →
  ∃ l, _flatten_value_to_list [a] = Ok l ∧ length l = shape_size sh.
Proof.
  intros Ha. exists (ravel a). split; [done|]. by apply ravel_length.
Qed.

Lemma flatten_value_to_list_length_witness :
  has_shape [2; 3]%nat array_2x3 = true ∧
  ∃ l, _flatten_value_to_list [array_2x3] = Ok l ∧ length l = 6%nat.
Proof.
  split; [reflexivity|].
  exact (flatten_value_to_list_length [2; 3]%nat array_2x3 eq_refl).
Defined.

(** ** The path of the vocabulary file *)

Lemma rev_app_chars (s1 s2 : string) :
  list_ascii_of_string (String.rev_app s1 s2) =
  List.rev (list_ascii_of_string s1) ++ list_ascii_of_string s2.
Proof.
  revert s2. induction s1 as [|a s1 IH]; intros s2; simpl; [done|].
  rewrite IH. simpl. by rewrite <-app_assoc.
Qed.

Lemma prefix_char_iff (c : ascii) (s : string) :
  String.prefix (String c "") s = true ↔ ∃ t, s = String c t.
Proof.
  destruct s as [|a s]; simpl.
  - split; [done|]. by intros [t [=]].
  - destruct (ascii_dec c a) as [<-|Hne].
    + rewrite prefix_empty. split; [by exists s|done].
    + split; [done|]. intros [t [= ? _]]. by destruct Hne.
Qed.

Lemma starts_with_slash_iff (s : string) :
  String.prefix "/" s = true ↔ ∃ t, s = "/" +:+ t.
Proof. apply prefix_char_iff. Qed.

Lemma ends_with_slash_iff (s : string) :
  String.prefix "/" (String.rev s) = true ↔ ∃ d, s = d +:+ "/".
Proof.
  rewrite starts_with_slash_iff. unfold String.rev. split.
  - intros [t Ht%(f_equal list_ascii_of_string)].
    rewrite rev_app_chars, app_nil_r in Ht. simpl in Ht.
    apply (f_equal (@List.rev ascii)) in Ht. rewrite List.rev_involutive in Ht.
    simpl in Ht. exists (string_of_list_ascii (List.rev (list_ascii_of_string t))).
    apply list_ascii_of_string_inj.
    by rewrite list_ascii_of_string_app, list_ascii_of_string_of_list_ascii.
  - intros [d ->]. exists (String.rev d). apply list_ascii_of_string_inj.
    unfold String.rev. rewrite rev_app_chars, app_nil_r, list_ascii_of_string_app.
    simpl. rewrite List.rev_app_distr. simpl.
    by rewrite list_ascii_of_string_app, rev_app_chars, app_nil_r.
Qed.

(** X18. The vocabulary is written to [vocab_filename] itself when that name
    starts with a slash, whatever the directory of the temporary assets is;
    otherwise it is written to the directory followed by the name, with a
    slash between them exactly when the directory is neither empty nor ends
    with a slash. *)
Theorem vocabulary_file_path (spec : analyzers._UniquesSpec)
    (temp_assets_dir : string) (pcoll : PCollection Batch) (out : Outcome) :
  _UniquesAnalyzerImpl_expand spec temp_assets_dir pcoll = Ok out →
  ∃ path lines,
    files_written out = [(path, lines)] ∧
    ((∃ t, analyzers.vocab_filename spec = "/" +:+ t) →
     path = analyzers.vocab_filename spec) ∧
    (¬ (∃ t, analyzers.vocab_filename spec = "/" +:+ t) →
     temp_assets_dir = "" ∨ (∃ d, temp_assets_dir = d +:+ "/") →
     path = temp_assets_dir +:+ analyzers.vocab_filename spec) ∧
    (¬ (∃ t, analyzers.vocab_filename spec = "/" +:+ t) →
     temp_assets_dir ≠ "" → ¬ (∃ d, temp_assets_dir = d +:+ "/") →
     path = temp_assets_dir +:+ "/" +:+ analyzers.vocab_filename spec).
Proof.
  intros Hout.
  destruct (_UniquesAnalyzerImpl_expand_cases spec temp_assets_dir pcoll)
    as [[_ Hr]|[(_ & _ & _ & Hr)|[Hvalid _]]]; [congruence..|].
  destruct (_UniquesAnalyzerImpl_expand_Ok spec temp_assets_dir pcoll Hvalid)
    as (out' & Hout' & Hfiles).
  assert (out' = out) as -> by congruence.
  eexists _, _. split; [exact Hfiles|]. unfold os_path_join.
  rewrite <-(starts_with_slash_iff (analyzers.vocab_filename spec)).
  rewrite <-(ends_with_slash_iff temp_assets_dir).
  destruct (String.prefix "/" (analyzers.vocab_filename spec)).
  { split; [done|]. split; intros Hn; by destruct Hn. }
  split; [discriminate|].
  destruct (decide (temp_assets_dir = "")) as [->|Hne].
  { simpl. split; [done|]. intros _ Hn. by destruct Hn. }
  rewrite bool_decide_eq_false_2 by done. simpl.
  destruct (String.prefix "/" (String.rev temp_assets_dir)).
  - split; [done|]. intros _ _ Hn. by destruct Hn.
  - split; [|done]. intros _ [?|?]; done.
Qed.

Lemma vocabulary_file_path_witness :
  ∃ out,
    _UniquesAnalyzerImpl_expand (spec_of None None false) "tmp" abacab = Ok out ∧
    ¬ (∃ t, analyzers.vocab_filename (spec_of None None false) = "/" +:+ t) ∧
    "tmp" ≠ "" ∧
    ¬ (∃ d, "tmp" = d +:+ "/") ∧
    ∃ lines, files_written out = [("tmp/vocab", lines)].
Proof.
  destruct (_UniquesAnalyzerImpl_expand_Ok (spec_of None None false) "tmp" abacab
              (valid_input_abacab None None false eq_refl eq_refl))
    as (out & Hout & _).
  assert (¬ (∃ t, analyzers.vocab_filename (spec_of None None false) = "/" +:+ t))
    as Hname.
  { intros H%starts_with_slash_iff. discriminate H. }
  assert (¬ (∃ d, "tmp" = d +:+ "/")) as Hdir.
  { intros H%ends_with_slash_iff. discriminate H. }
  exists out. split; [exact Hout|]. split; [exact Hname|].
  split; [discriminate|]. split; [exact Hdir|].
  destruct (vocabulary_file_path _ _ _ _ Hout) as (path & lines & Hfiles & _ & _ & Hsep).
  exists lines. rewrite Hfiles, (Hsep Hname) by (discriminate || exact Hdir).
  reflexivity.
Defined.

(** ** Growing [top_k] *)

(** X19. With the same frequency threshold, the entries selected for a
    smaller [top_k] are the first entries selected for a larger one, in the
    same order. *)
Theorem top_k_prefix (spec spec' : analyzers._UniquesSpec)
    (lists : PCollection (list Element)) (k k' : Z) :
  analyzers.top_k spec = Some k →
  analyzers.top_k spec' = Some k' →
  analyzers.frequency_threshold spec' = analyzers.frequency_threshold spec →
  k ≤ k' →
  final_counts spec lists = take (Z.to_nat k) (final_counts spec' lists).
Proof.
  intros Hk Hk' Ht Hle. rewrite !final_counts_unfold, Hk, Hk'.
  assert (counts_FilterByFrequencyThreshold spec' lists =
          counts_FilterByFrequencyThreshold spec lists) as ->.
  { unfold counts_FilterByFrequencyThreshold. by rewrite Ht. }
  rewrite take_take. f_equal. lia.
Qed.

Lemma top_k_prefix_witness :
  analyzers.top_k (spec_of (Some 1) None true) = Some 1 ∧
  analyzers.top_k (spec_of (Some 3) None true) = Some 3 ∧
  1 ≤ 3 ∧
  final_counts (spec_of (Some 1) None true) (flattened abacab) =
  take (Z.to_nat 1) (final_counts (spec_of (Some 3) None true) (flattened abacab)).
Proof.
  split; [reflexivity|]. split; [reflexivity|]. split; [lia|].
  apply (top_k_prefix (spec_of (Some 1) None true) (spec_of (Some 3) None true)
           (flattened abacab) 1 3); [reflexivity|reflexivity|reflexivity|lia].
Defined.
